(** * Election swing projection engine: shallow embedding and properties

    Sources embedded here:
    - [lib/election/swing] (shared swing and styling utilities):
      [clamp], [iowaMarginBinIndex], [extrusionFromMarginIOWA],
      [turnoutHeightFromVotesIOWA], [computeSharesAfterSwing],
      [computeProjectedMargin];
    - [pages/RustBeltSwing3DPage.tsx]: [projectedSwing],
      [computeStateProjectedMargin], [computeStateBaselineMargin],
      [computeCurrentStatewideMarginNoLocal], [runSolver], [clearSolver].

    Numbers.  A JavaScript [number] that holds a vote count, a share, a
    slider value or a margin is modelled as a rational [Q] with exact
    arithmetic; equalities are stated with [==] ([Qeq]).  Rounding of
    IEEE doubles is therefore outside the model: the identities below are
    the exact ones the floating-point code approximates.  Every division
    of the sources is guarded ([Math.max(1, _)], [T>0], [sumDG > 1],
    [denom<=0] replaced by [1], a constant divisor), so the convention
    [x / 0 == 0] of [Q] is never exercised.  The only place where a
    non-finite number is an expected input is the text field of the
    solver, which is modelled through the value [parseFloat] gives for
    it ([parsed]). *)

From Stdlib Require Import QArith Qminmax Qabs Qround Lqa Ascii DecimalString.
From stdpp Require Import gmap strings list fin_maps.

Open Scope Q_scope.

(** ** JavaScript number primitives over [Q] *)

Module JS.

(** [a < b] *)
Definition ltb (a b : Q) : bool := negb (Qle_bool b a).
(** [a > b] *)
Definition gtb (a b : Q) : bool := ltb b a.
(** [a <= b] *)
Definition leb (a b : Q) : bool := Qle_bool a b.
(** [a !== 0] on finite numbers *)
Definition nonzero (a : Q) : bool := negb (Qeq_bool a 0).
(** [x || dflt] for a finite number [x]: [0] is the only falsy one. *)
Definition orElse (x dflt : Q) : Q := if Qeq_bool x 0 then dflt else x.
(** [Math.max], [Math.min], [Math.abs] *)
Definition max (a b : Q) : Q := Qmax a b.
Definition min (a b : Q) : Q := Qmin a b.
Definition abs (a : Q) : Q := Qabs a.

(** The value [parseFloat] returns for a piece of text. *)
Inductive parsed : Type :=
| PNum (q : Q)
| PNaN
| PInfinity (negative : bool).

(** [isFinite] *)
Definition isFinite (p : parsed) : bool :=
  match p with PNum _ => true | _ => false end.

(** *** Strings, [parseInt] and the 32-bit operators

    A string stands for a JavaScript string all of whose code units are
    below 256, one [ascii] per code unit. *)

(** White space and line terminators below 256: TAB, LF, VT, FF, CR, SP
    and NBSP. *)
Definition isWhiteSpace (c : ascii) : bool :=
  let n := N_of_ascii c in
  ((9 <=? n) && (n <=? 13) || (n =? 32) || (n =? 160))%N.

(** The value of a digit in radix 16. *)
Definition hexDigit (c : ascii) : option N :=
  let n := N_of_ascii c in
  if ((48 <=? n) && (n <=? 57))%N then Some (n - 48)%N
  else if ((65 <=? n) && (n <=? 70))%N then Some (n - 55)%N
  else if ((97 <=? n) && (n <=? 102))%N then Some (n - 87)%N
  else None.

Fixpoint trimStart (s : string) : string :=
  match s with
  | String c s' => if isWhiteSpace c then trimStart s' else s
  | EmptyString => s
  end.

(** The digits of the longest prefix made of radix-16 digits. *)
Fixpoint hexDigits (s : string) : list N :=
  match s with
  | String c s' =>
      match hexDigit c with
      | Some d => d :: hexDigits s'
      | None => []
      end
  | EmptyString => []
  end.

(** The integer a list of radix-16 digits denotes. *)
Definition hexValue (ds : list N) : N := fold_left (fun a d => (16 * a + d)%N) ds 0%N.

(** The double nearest to a natural number (ties to even); [None] when
    it overflows to [Infinity]. *)
Definition roundToDouble (m : N) : option N :=
  let k := N.size m in
  if (k <=? 53)%N then Some m
  else
    let sh := (k - 53)%N in
    let q := N.shiftr m sh in
    let r := N.land m (N.ones sh) in
    let half := N.shiftl 1 (sh - 1) in
    let q' := if ((half <? r) || ((r =? half) && N.odd q))%N then (q + 1)%N else q in
    let v := N.shiftl q' sh in
    if (v <? 2 ^ 1024)%N then Some v else None.

(** An optional sign at the head of the text. *)
Definition stripSign (s : string) : bool * string :=
  match s with
  | String "-" s' => (true, s')
  | String "+" s' => (false, s')
  | _ => (false, s)
  end.

(** An optional [0x] or [0X] at the head of the text. *)
Definition stripHexPrefix (s : string) : string :=
  match s with
  | String "0" (String "x" s') => s'
  | String "0" (String "X" s') => s'
  | _ => s
  end.

(** [parseInt(s, 16)]: leading white space, an optional sign, an optional
    [0x] or [0X], then the longest run of digits; [NaN] without a digit. *)
Definition parseInt16 (s : string) : parsed :=
  let s := trimStart s in
  let '(negative, s) := stripSign s in
  let s := stripHexPrefix s in
  match hexDigits s with
  | [] => PNaN
  | ds =>
      match roundToDouble (hexValue ds) with
      | Some v => PNum (inject_Z (if negative then - Z.of_N v else Z.of_N v))
      | None => PInfinity negative
      end
  end.

(** [ToInt32]: [0] for [NaN] and the infinities, else the integer part
    wrapped into [[-2^31, 2^31)]. *)
Definition toInt32 (n : parsed) : Z :=
  match n with
  | PNum q =>
      let i := Z.quot (Qnum q) (Zpos (Qden q)) in
      let m := (i mod 2 ^ 32)%Z in
      if (m <? 2 ^ 31)%Z then m else (m - 2 ^ 32)%Z
  | _ => 0%Z
  end.

(** [(n >> k) & 255] for a shift count [0 <= k < 32]. *)
Definition byteAt (n : parsed) (k : Z) : Z := Z.land (Z.shiftr (toInt32 n) k) 255.

(** [s.replace(c, '')] for a one-character pattern: the first occurrence
    goes. *)
Fixpoint removeFirst (c : ascii) (s : string) : string :=
  match s with
  | String c' s' => if Ascii.eqb c' c then s' else String c' (removeFirst c s')
  | EmptyString => EmptyString
  end.

(** [s.split('').map(c=>c+c).join('')] *)
Fixpoint doubleChars (s : string) : string :=
  match s with
  | String c s' => String c (String c (doubleChars s'))
  | EmptyString => EmptyString
  end.

(** [s.padStart(n, c)] for a padding string [c] of one character. *)
Fixpoint repeatChar (n : nat) (c : ascii) : string :=
  match n with
  | O => EmptyString
  | S k => String c (repeatChar k c)
  end.

Definition padStart (n : nat) (c : ascii) (s : string) : string :=
  String.append (repeatChar (n - String.length s) c) s.

(** [Math.round] and [Math.floor] on a finite number. *)
Definition floor (a : Q) : Z := Qfloor a.
Definition round (a : Q) : Z := Qfloor (a + (1 # 2)).

(** [Math.sign] on a finite number: [1], [-1] or [0]. *)
Definition sign (a : Q) : Q :=
  if ltb 0 a then 1 else if ltb a 0 then -1 else 0.

(** [a !== b] on finite numbers *)
Definition neqb (a b : Q) : bool := negb (Qeq_bool a b).

End JS.

(** ** lib/election/swing *)

Module Swing.

(** [clamp(v, lo, hi) = Math.max(lo, Math.min(hi, v))] *)
Definition clamp (v lo hi : Q) : Q := JS.max lo (JS.min hi v).

Definition iowaMarginBinIndex (absMargin : Q) : nat :=
  let m := JS.abs absMargin in
  if JS.ltb m 1 then 0%nat
  else if JS.ltb m 5 then 1%nat
  else if JS.ltb m 10 then 2%nat
  else if JS.ltb m 20 then 3%nat
  else if JS.ltb m 30 then 4%nat
  else 5%nat.

Definition extrusionFromMarginIOWA (marginPct : Q) : Q :=
  let mag := JS.min 40 (JS.abs marginPct) in
  1000 + (mag / 40) * 18000.

Definition turnoutHeightFromVotesIOWA (totalVotes turnoutFactor p95 : Q) : Q :=
  let tf := clamp turnoutFactor 0.5 1.5 in
  let scaledVotes := JS.max 0 (JS.orElse totalVotes 0) * tf in
  let norm := JS.min 1.2 (if JS.gtb p95 0 then scaledVotes / p95 else 0) in
  1000 + norm * 18000.

Record Shares := mkShares { dShare : Q; gShare : Q }.

(** The two shares after the additive swing and the clamp, before the
    renormalisation test (the values of [dShare], [gShare] at the
    declaration of [sumDG]). *)
Definition clampedShares (dShare0 gShare0 demSwingPP gopSwingPP : Q) : Shares :=
  let dShare := dShare0 + (demSwingPP / 100) in
  let gShare := gShare0 + (gopSwingPP / 100) in
  let dShare := clamp dShare 0 1 in
  let gShare := clamp gShare 0 1 in
  mkShares dShare gShare.

(** The renormalisation step on the clamped shares. *)
Definition renormalize (s : Shares) : Shares :=
  let sumDG := dShare s + gShare s in
  if JS.gtb sumDG 1 then
    let scale := 1 / sumDG in
    mkShares (dShare s * scale) (gShare s * scale)
  else s.

Definition computeSharesAfterSwing (dShare0 gShare0 demSwingPP gopSwingPP : Q) : Shares :=
  renormalize (clampedShares dShare0 gShare0 demSwingPP gopSwingPP).

Record Margins := mkMargins { baseMargin : Q; newMargin : Q }.

(** The optional parameters [localDemPP], [localGopPP] default to [0];
    the caller passes [0] for an omitted argument. *)
Definition computeProjectedMargin
    (demVotes gopVotes totalVotes demSwingPP gopSwingPP localDemPP localGopPP : Q) : Margins :=
  let T := JS.max 1 (JS.orElse totalVotes 0) in
  let d0 := JS.orElse demVotes 0 / T in
  let g0 := JS.orElse gopVotes 0 / T in
  let baseMargin := (g0 - d0) * 100 in
  let s := computeSharesAfterSwing d0 g0 (demSwingPP + localDemPP) (gopSwingPP + localGopPP) in
  let newMargin := (gShare s - dShare s) * 100 in
  mkMargins baseMargin newMargin.

(** *** Colours *)

Definition IOWA_GOP : list string :=
  ["#FFC4C4"; "#FFA0A0"; "#FF7070"; "#E03B2F"; "#B51400"; "#730900"]%string.
Definition IOWA_DEM : list string :=
  ["#B7C8FF"; "#8FAEFF"; "#5D90FF"; "#2D6BFF"; "#0047D6"; "#001E5C"]%string.

(** A colour [[r, g, b, a]]. *)
Record Rgba := mkRgba { red : Z; green : Z; blue : Z; alpha : Q }.

(** The colour of the [catch] branches and of non-finite margins. *)
Definition fallbackRgba (a : Q) : Rgba := mkRgba 100 116 139 a.

(** [hexToRgba(h, a)] on a string; nothing in its [try] block throws
    then. *)
Definition hexToRgba (h : string) (a : Q) : Rgba :=
  let s := JS.removeFirst "#" h in
  let n := JS.parseInt16 (if (String.length s =? 3)%nat then JS.doubleChars s else s) in
  mkRgba (JS.byteAt n 16) (JS.byteAt n 8) (JS.byteAt n 0) a.

(** [hexToRgba(palette[idx], a)]: an index outside the palette gives
    [undefined], whose [replace] throws into the [catch] branch. *)
Definition paletteRgba (palette : list string) (idx : nat) (a : Q) : Rgba :=
  match nth_error palette idx with
  | Some h => hexToRgba h a
  | None => fallbackRgba a
  end.

(** [iowaMarginRgba(marginPct, alpha)] on any number. *)
Definition iowaMarginRgba (marginPct : JS.parsed) (alpha : Q) : Rgba :=
  match marginPct with
  | JS.PNum m =>
      let idx := iowaMarginBinIndex (JS.abs m) in
      if JS.leb 0 m then paletteRgba IOWA_GOP idx alpha
      else paletteRgba IOWA_DEM idx alpha
  | _ => fallbackRgba alpha
  end.

End Swing.

(** ** pages/RustBeltSwing3DPage.tsx *)

Module RustBelt.

(** [CountyBaseline]: one county's returns for one cycle (the field names
    keep their [2024] suffix whatever the cycle is). *)
Record CountyBaseline := mkCounty {
  fips : string;
  stateFips : string;
  countyName : string;
  totalVotes2024 : Q;
  votesGop2024 : Q;
  votesDem2024 : Q
}.

(** Value type of [solverLocalSwingsRef]: local swing of a county, in pp. *)
Record LocalSwing := mkLocal { dem : Q; gop : Q }.

Inductive SolverMode := uniform | elastic.

(** The messages [runSolver] passes to [setSolverStatus]; the numbers are
    the ones formatted into the text with [toFixed(2)]. *)
Inductive SolverStatus :=
| StatusNone                                  (* initial empty text *)
| StatusEnterNumeric                          (* 'Enter a numeric target margin in pp (e.g., 1.5)' *)
| StatusAlreadyWithin (delta : Q)             (* 'Already within .. pp of target; no solver applied.' *)
| StatusNoBaseline                            (* 'No baseline data loaded' *)
| StatusZeroTotal                             (* 'Zero total votes baseline' *)
| StatusApplied (mode : SolverMode) (delta maxAbs : Q).
                                              (* '.. distribution: applied county swings ..' *)

(** A JavaScript [Map] is a finite map; [Array.from(m.values())] and
    [Array.from(m.keys())] list it ([map_to_list]).  The loaders store
    every record under its own [fips]. *)
Abbreviation BaseMap := (gmap string CountyBaseline).

(** The part of the component state that the swing engine reads and
    writes: slider values, solver controls, and the refs
    [solverLocalSwingsRef], [baseMap], [baselineByYearRef]. *)
Record Page := mkPage {
  demSwing : Q;
  gopSwing : Q;
  solverTargetMargin : JS.parsed;      (* parseFloat(String(solverTargetMargin||'').trim()) *)
  solverMode : SolverMode;
  solverActive : bool;
  solverLocalSwings : gmap string LocalSwing;
  solverStatus : SolverStatus;
  tickKey : nat;
  baseMap : BaseMap;
  baselineByYear : gmap N BaseMap
}.

Definition setSolverStatus (s : SolverStatus) (st : Page) : Page :=
  mkPage (demSwing st) (gopSwing st) (solverTargetMargin st) (solverMode st)
         (solverActive st) (solverLocalSwings st) s (tickKey st)
         (baseMap st) (baselineByYear st).

Definition setSolverActive (b : bool) (st : Page) : Page :=
  mkPage (demSwing st) (gopSwing st) (solverTargetMargin st) (solverMode st)
         b (solverLocalSwings st) (solverStatus st) (tickKey st)
         (baseMap st) (baselineByYear st).

Definition setSolverLocalSwings (m : gmap string LocalSwing) (st : Page) : Page :=
  mkPage (demSwing st) (gopSwing st) (solverTargetMargin st) (solverMode st)
         (solverActive st) m (solverStatus st) (tickKey st)
         (baseMap st) (baselineByYear st).

(** [setTickKey(k=>k+1)] *)
Definition bumpTickKey (st : Page) : Page :=
  mkPage (demSwing st) (gopSwing st) (solverTargetMargin st) (solverMode st)
         (solverActive st) (solverLocalSwings st) (solverStatus st) (S (tickKey st))
         (baseMap st) (baselineByYear st).

(** [Array.from(m.values())] *)
Definition values (m : BaseMap) : list CountyBaseline := (map_to_list m).*2.

Record GD := mkGD { g : Q; d : Q }.

(** Result of [projectedSwing]; the three optional fields are absent on
    the early return. *)
Record Projection := mkProjection {
  swing : Q;
  newMargin : Q;
  baseMargin : Q;
  baseShares : option GD;
  newShares : option GD;
  local : option LocalSwing
}.

(** Truthiness of the optional [fips] argument: present and not [''] . *)
Definition truthyFips (fips : option string) : option string :=
  match fips with
  | Some f => if String.eqb f EmptyString then None else Some f
  | None => None
  end.

(** The local swing [projectedSwing] adds for [fips] ([localDem],
    [localGop] after the [if (solverActive && fips)] block). *)
Definition localSwingFor (st : Page) (fips : option string) : LocalSwing :=
  if solverActive st then
    match truthyFips fips with
    | Some f =>
        match solverLocalSwings st !! f with
        | Some loc => mkLocal (dem loc) (gop loc)
        | None => mkLocal 0 0
        end
    | None => mkLocal 0 0
    end
  else mkLocal 0 0.

Definition projectedSwing (st : Page) (base : option CountyBaseline) (fips : option string) : Projection :=
  match base with
  | None => mkProjection 0 0 0 None None None
  | Some base =>
    if JS.leb (totalVotes2024 base) 0 then mkProjection 0 0 0 None None None
    else
      let gShare0 := votesGop2024 base / JS.max 1 (totalVotes2024 base) in
      let dShare0 := votesDem2024 base / JS.max 1 (totalVotes2024 base) in
      let baseMargin := (gShare0 - dShare0) * 100 in
      let loc := localSwingFor st fips in
      let dShare := dShare0 + (demSwing st / 100) + (dem loc / 100) in
      let gShare := gShare0 + (gopSwing st / 100) + (gop loc / 100) in
      let dShare := Swing.clamp dShare 0 1 in
      let gShare := Swing.clamp gShare 0 1 in
      let sumDG := dShare + gShare in
      let '(dShare, gShare) :=
        if JS.gtb sumDG 1 then
          let scale := 1 / sumDG in (dShare * scale, gShare * scale)
        else (dShare, gShare) in
      let newMargin := (gShare - dShare) * 100 in
      let swing := newMargin - baseMargin in
      mkProjection swing newMargin baseMargin
        (Some (mkGD gShare0 dShare0)) (Some (mkGD gShare dShare)) (Some loc)
  end.

(** [anySwing = (demSwing!==0 || gopSwing!==0 || solverActive)] *)
Definition anySwing (st : Page) : bool :=
  JS.nonzero (demSwing st) || JS.nonzero (gopSwing st) || solverActive st.

(** [Math.max(0, Number(b.totalVotes2024||0))]: the weight of a county in
    every turnout-weighted sum of the page. *)
Definition turnoutOf (b : CountyBaseline) : Q :=
  JS.max 0 (JS.orElse (totalVotes2024 b) 0).

(** The accumulation loop shared by the three aggregators: [T += t] and
    [sum += (m/100) * t] over the entries, then [T>0 ? (sum/T)*100 : 0].
    [marginOf] is the loop body's choice of [m]. *)
Definition weightedMargin (marginOf : CountyBaseline -> Q) (entries : list CountyBaseline) : Q :=
  match entries with
  | [] => 0
  | _ =>
    let '(T, sum) :=
      fold_left (fun '(T, sum) b =>
                   let m := marginOf b in
                   let t := turnoutOf b in
                   (T + t, sum + (m / 100) * t))
                entries (0, 0) in
    if JS.gtb T 0 then (sum / T) * 100 else 0
  end.

Definition computeStateProjectedMargin (st : Page) (stateFips' : string) : Q :=
  let entries := filter (fun b => stateFips b = stateFips') (values (baseMap st)) in
  weightedMargin
    (fun b => let p := projectedSwing st (Some b) (Some (fips b)) in
              if anySwing st then newMargin p else baseMargin p)
    entries.

Definition computeStateBaselineMargin (st : Page) (stateFips' : string) : Q :=
  let entries := filter (fun b => stateFips b = stateFips') (values (baseMap st)) in
  weightedMargin
    (fun b => let g0 := votesGop2024 b / JS.max 1 (totalVotes2024 b) in
              let d0 := votesDem2024 b / JS.max 1 (totalVotes2024 b) in
              (g0 - d0) * 100)
    entries.

Definition computeCurrentStatewideMarginNoLocal (st : Page) : Q :=
  let entries := values (baseMap st) in
  weightedMargin
    (fun b => let p := projectedSwing st (Some b) None in
              if JS.nonzero (demSwing st) || JS.nonzero (gopSwing st)
              then newMargin p else baseMargin p)
    entries.

(** [clearSolver(refresh)] *)
Definition clearSolver (refresh : bool) (st : Page) : Page :=
  let st := setSolverLocalSwings ∅ st in
  let st := setSolverActive false st in
  if refresh then bumpTickKey st else st.

(** *** The targeted outcome solver *)

(** [String(y)] for a year key. *)
Definition toString (y : N) : string := NilEmpty.string_of_uint (N.to_uint y).

(** [Array.prototype.sort()] without a comparator orders the elements by
    their string forms, compared by code unit. *)
Fixpoint sortInsert (y : N) (l : list N) : list N :=
  match l with
  | [] => [y]
  | z :: l' =>
      if String.leb (toString y) (toString z) then y :: z :: l'
      else z :: sortInsert y l'
  end.

Definition sort (l : list N) : list N := fold_right sortInsert [] l.

(** [yearMaps.get(y)?.get(f)] *)
Definition cycleRecord (yearMaps : gmap N BaseMap) (y : N) (f : string) : option CountyBaseline :=
  match yearMaps !! y with
  | Some m => m !! f
  | None => None
  end.

(** The [margins] array of county [f] once the loop over [years] is done. *)
Definition cycleMargins (yearMaps : gmap N BaseMap) (years : list N) (f : string) : list Q :=
  fold_left
    (fun margins y =>
       match cycleRecord yearMaps y f with
       | Some m =>
           if JS.gtb (totalVotes2024 m) 0 then
             let g0 := votesGop2024 m / JS.max 1 (totalVotes2024 m) in
             let d0 := votesDem2024 m / JS.max 1 (totalVotes2024 m) in
             margins ++ [(g0 - d0) * 100]
           else margins
       | None => margins
       end)
    years [].

(** [sumAbs += Math.abs(margins[i]-margins[i-1]); cnt++] *)
Definition absDeltaStep (margins : list Q) (acc : Q * nat) (i : nat) : Q * nat :=
  let '(sumAbs, cnt) := acc in
  (sumAbs + JS.abs (nth i margins 0 - nth (i - 1) margins 0), S cnt).

(** [for (let i=1;i<margins.length;i++){ .. }] from [sumAbs=0, cnt=0] *)
Definition absDeltaLoop (margins : list Q) : Q * nat :=
  fold_left (absDeltaStep margins) (seq 1 (length margins - 1)) (0, 0%nat).

(** The value of [elast] for a county with the given [margins]. *)
Definition elastOfMargins (margins : list Q) : Q :=
  if (2 <=? length margins)%nat then
    let '(sumAbs, cnt) := absDeltaLoop margins in
    let avg := match cnt with
               | O => 0
               | _ => sumAbs / inject_Z (Z.of_nat cnt)
               end in
    JS.max 0.5 (JS.min 3 (0.5 + avg / 5))
  else 1.

(** The body of the first loop of [runSolver] for one county. *)
Definition elasticity (yearMaps : gmap N BaseMap) (years : list N) (f : string) : Q :=
  elastOfMargins (cycleMargins yearMaps years f).

(** [m.get(k) || dflt] on a map of numbers. *)
Definition getOr (m : gmap string Q) (k : string) (dflt : Q) : Q :=
  match m !! k with
  | Some x => JS.orElse x dflt
  | None => dflt
  end.

(** [eMap] after the first loop. *)
Definition buildEMap (yearMaps : gmap N BaseMap) (years : list N)
    (entries : list CountyBaseline) : gmap string Q :=
  fold_left (fun eMap b => <[fips b := elasticity yearMaps years (fips b)]> eMap)
            entries ∅.

(** [(solverMode==='elastic'? (eMap.get(b.fips)||1) : 1)] *)
Definition unitElasticity (mode : SolverMode) (eMap : gmap string Q) (b : CountyBaseline) : Q :=
  match mode with
  | elastic => getOr eMap (fips b) 1
  | uniform => 1
  end.

(** [w = Math.max(0, Number(b.totalVotes2024||0))/T] *)
Definition unitWeight (T : Q) (b : CountyBaseline) : Q :=
  turnoutOf b / T.

(** [denom] and [wMap] after the second loop. *)
Definition buildDenom (mode : SolverMode) (eMap : gmap string Q) (T : Q)
    (entries : list CountyBaseline) : Q * gmap string Q :=
  fold_left
    (fun '(denom, wMap) b =>
       let w := unitWeight T b in
       (denom + w * unitElasticity mode eMap b, <[fips b := w]> wMap))
    entries (0, ∅).

(** [dCounty = (delta * e) / denom] *)
Definition dCounty (mode : SolverMode) (eMap : gmap string Q) (delta denom : Q)
    (b : CountyBaseline) : Q :=
  let e := unitElasticity mode eMap b in
  (delta * e) / denom.

(** [local] and [maxAbs] after the third loop. *)
Definition buildLocal (mode : SolverMode) (eMap wMap : gmap string Q) (delta denom : Q)
    (entries : list CountyBaseline) : gmap string LocalSwing * Q :=
  fold_left
    (fun '(local, maxAbs) b =>
       let w := getOr wMap (fips b) 0 in
       let dC := dCounty mode eMap delta denom b in
       let g := dC / 2 in
       let d := (- dC) / 2 in
       (<[fips b := mkLocal d g]> local, JS.max maxAbs (JS.abs dC)))
    entries (∅, 0).

(** [T = entries.reduce((acc,b)=> acc + Math.max(0, Number(b.totalVotes2024||0)), 0)] *)
Definition totalTurnout (entries : list CountyBaseline) : Q :=
  fold_left (fun acc b => acc + turnoutOf b) entries 0.

(** [delta = target - current] for a finite target. *)
Definition solverDelta (st : Page) (target : Q) : Q :=
  target - computeCurrentStatewideMarginNoLocal st.

(** [denom] as used by the third loop, after [if (denom<=0) denom = 1]. *)
Definition solverDenom (mode : SolverMode) (eMap : gmap string Q) (T : Q)
    (entries : list CountyBaseline) : Q :=
  let denom := fst (buildDenom mode eMap T entries) in
  if JS.leb denom 0 then 1 else denom.

(** [runSolver()].  Nothing in the [try] block throws on finite numbers,
    so the [catch] branch has no counterpart. *)
Definition runSolver (st : Page) : Page :=
  match solverTargetMargin st with
  | JS.PNum target =>
    let delta := solverDelta st target in
    if JS.ltb (JS.abs delta) 0.05 then
      let st := clearSolver false st in
      setSolverStatus (StatusAlreadyWithin delta) st
    else
      let entries := values (baseMap st) in
      match entries with
      | [] => setSolverStatus StatusNoBaseline st
      | _ =>
        let T := totalTurnout entries in
        if JS.leb T 0 then setSolverStatus StatusZeroTotal st
        else
          let yearMaps := baselineByYear st in
          let years := sort (map_to_list yearMaps).*1 in
          let eMap := buildEMap yearMaps years entries in
          let wMap := snd (buildDenom (solverMode st) eMap T entries) in
          let denom := solverDenom (solverMode st) eMap T entries in
          let '(local, maxAbs) := buildLocal (solverMode st) eMap wMap delta denom entries in
          let st := setSolverLocalSwings local st in
          let st := setSolverActive true st in
          let st := setSolverStatus (StatusApplied (solverMode st) delta maxAbs) st in
          bumpTickKey st
      end
  | _ => setSolverStatus StatusEnterNumeric st
  end.

(** *** Turnout statistics *)

(** [totals.sort((a,b)=>a-b)]: ascending order. *)
Fixpoint insertAscending (x : Q) (l : list Q) : list Q :=
  match l with
  | [] => [x]
  | y :: l' => if JS.leb x y then x :: y :: l' else y :: insertAscending x l'
  end.

Definition sortAscending (l : list Q) : list Q := fold_right insertAscending [] l.

(** The positive totals pushed by the [forEach] over the baseline. *)
Definition positiveTotals (entries : list CountyBaseline) : list Q :=
  fold_left
    (fun totals b =>
       let t := JS.orElse (totalVotes2024 b) 0 in
       if JS.gtb t 0 then totals ++ [t] else totals)
    entries [].

Record TurnoutStats := mkStats { p95 : Q; max : Q }.

(** The value the effect stores in [turnoutStatsRef]. *)
Definition turnoutStats (st : Page) : TurnoutStats :=
  match positiveTotals (values (baseMap st)) with
  | [] => mkStats 1 1
  | totals =>
      let totals := sortAscending totals in
      let n := length totals in
      let max := nth (n - 1) totals 0 in
      let pos := inject_Z (Z.of_nat (n - 1)) * 0.95 in
      let base := JS.floor pos in
      let frac := pos - inject_Z base in
      let lo := nth (Z.to_nat base) totals 0 in
      let hi := nth (Nat.min (Z.to_nat base + 1) (n - 1)) totals 0 in
      let p95 := lo + (hi - lo) * JS.orElse frac 0 in
      mkStats (JS.max 1 p95) (JS.max 1 max)
  end.

(** *** Map styling *)

Inductive ExtrusionMode := marginMode | turnoutMode | hybridMode.

(** The display controls the layers read, with the 95th percentile of
    [turnoutStatsRef]. *)
Record View := mkView {
  turnoutShift : Q;
  extrusionMode : ExtrusionMode;
  hybridWeight : Q;
  heightScale : Q;
  stateHeightScale : Q;
  showDiffHalo : bool;
  fillAlpha : Q;
  statsP95 : Q
}.

(** [setExtrusionMode(mode)] *)
Definition setExtrusionMode (mode : ExtrusionMode) (v : View) : View :=
  mkView (turnoutShift v) mode (hybridWeight v) (heightScale v) (stateHeightScale v)
         (showDiffHalo v) (fillAlpha v) (statsP95 v).

(** The margin a layer shows for a county: [anySwing ? newMargin : baseMargin]. *)
Definition shownMargin (st : Page) (base : CountyBaseline) (fips : string) : Q :=
  let p := projectedSwing st (Some base) (Some fips) in
  if anySwing st then newMargin p else baseMargin p.

(** [getElevation] of the county layer, from the county code of the
    feature on. *)
Definition countyElevation (st : Page) (v : View) (fips : string) : Q :=
  let base := 1000 in
  match baseMap st !! fips with
  | None => base
  | Some baseRec =>
      let marginForHeight := shownMargin st baseRec fips in
      let marginHeight := Swing.extrusionFromMarginIOWA marginForHeight in
      let tf := Swing.clamp (1 + turnoutShift v / 100) 0.5 1.5 in
      let turnoutHeight :=
        Swing.turnoutHeightFromVotesIOWA (JS.orElse (totalVotes2024 baseRec) 0) tf (statsP95 v) in
      let h :=
        match extrusionMode v with
        | marginMode => marginHeight
        | turnoutMode => turnoutHeight
        | hybridMode =>
            let w := Swing.clamp (hybridWeight v) 0 100 / 100 in
            w * marginHeight + (1 - w) * turnoutHeight
        end in
      let lift := 1.75 in
      h * Swing.clamp (heightScale v) 0.1 3 * lift
  end.

(** The properties of a feature the state layer reads, each absent or a
    string, as the census boundary files carry them. *)
Record StateProperties := mkStateProperties {
  STATE : option string;
  STATEFP : option string;
  STATEFP10 : option string
}.

(** [f?.properties?.STATE || f?.properties?.STATEFP ||
    f?.properties?.STATEFP10 || '']: the first property that is present
    and not empty, the empty string when there is none. *)
Definition stateProperty (p : StateProperties) : string :=
  match truthyFips (STATE p) with
  | Some s => s
  | None =>
      match truthyFips (STATEFP p) with
      | Some s => s
      | None =>
          match truthyFips (STATEFP10 p) with
          | Some s => s
          | None => EmptyString
          end
      end
  end.

(** [to2(v)]: [v==null ? null : String(v).padStart(2,'0')]; [None] is
    [null] or [undefined]. *)
Definition to2 (v : option string) : option string :=
  match v with
  | None => None
  | Some s => Some (JS.padStart 2 "0" s)
  end.

(** [getElevation] of the state layer, from the properties of the
    feature on; the first branch is [if (!st) return 0]. *)
Definition stateElevation (st : Page) (v : View) (p : StateProperties) : Q :=
  match truthyFips (to2 (Some (stateProperty p))) with
  | None => 0
  | Some sf =>
      let m := computeStateProjectedMargin st sf in
      let base := Swing.extrusionFromMarginIOWA m in
      let hs := Swing.clamp (heightScale v) 0.1 3 in
      let shs := Swing.clamp (stateHeightScale v) 0.1 5.0 in
      base * hs * shs * 0.6
  end.

(** [getLineColor] of the county layer, from the county code on. *)
Definition countyLineColor (st : Page) (v : View) (fips : string) : Swing.Rgba :=
  if negb (showDiffHalo v) then Swing.mkRgba 255 255 255 200
  else
    match baseMap st !! fips with
    | None => Swing.mkRgba 255 255 255 180
    | Some base =>
        let swing := swing (projectedSwing st (Some base) None) in
        if negb (anySwing st) then Swing.mkRgba 255 255 255 180
        else
          let a := inject_Z (120 + JS.round (JS.min 100 (JS.abs swing * 10))) in
          if JS.leb 0 swing then Swing.mkRgba 220 38 38 a
          else Swing.mkRgba 37 99 235 a
    end.

(** *** County flips *)

(** [countFlips()]: the pair [(flips, total)] after the loop over the
    entries. *)
Definition countFlips (st : Page) : nat * nat :=
  let entries := values (baseMap st) in
  fold_left
    (fun '(flips, total) b =>
       let p := projectedSwing st (Some b) (Some (fips b)) in
       let flips :=
         if JS.neqb (JS.sign (baseMargin p)) (JS.sign (newMargin p))
            && JS.gtb (JS.abs (baseMargin p - newMargin p)) 0.1
         then S flips else flips in
       (flips, S total))
    entries (0%nat, 0%nat).

End RustBelt.

(** ** The specification's vocabulary *)

Module Spec.

Import RustBelt.

(** [Σ] over a list of numbers. *)
Definition Qsum (l : list Q) : Q := fold_right Qplus 0 l.

(** The share bound: [0 <= gShare <= 1], [0 <= dShare <= 1],
    [gShare + dShare <= 1]. *)
Definition sharesOK (dS gS : Q) : Prop :=
  0 <= gS <= 1 /\ 0 <= dS <= 1 /\ gS + dS <= 1.

(** [Σ(margin_i * turnout_i) / Σ(turnout_i)] with [turnout_i] the
    baseline [totalVotes] of the unit. *)
Definition aggregate (marginOf : CountyBaseline -> Q) (units : list CountyBaseline) : Q :=
  Qsum (map (fun b => marginOf b * totalVotes2024 b) units)
  / Qsum (map totalVotes2024 units).

(** Units with positive turnout. *)
Definition reporting (units : list CountyBaseline) : list CountyBaseline :=
  List.filter (fun b => JS.gtb (totalVotes2024 b) 0) units.

(** The margin of a record by the share formula without swing. *)
Definition noSwingMargin (b : CountyBaseline) : Q :=
  (votesGop2024 b / JS.max 1 (totalVotes2024 b)
   - votesDem2024 b / JS.max 1 (totalVotes2024 b)) * 100.

(** The cycles of unit [f] that have positive turnout, in the order of
    [years]. *)
Definition positiveCycles (yearMaps : gmap N BaseMap) (years : list N) (f : string)
    : list CountyBaseline :=
  reporting (omap (fun y => cycleRecord yearMaps y f) years).

(** Absolute changes between consecutive margins. *)
Fixpoint consecutiveAbsDeltas (ms : list Q) : list Q :=
  match ms with
  | a :: (b :: _) as tl => Qabs (b - a) :: consecutiveAbsDeltas tl
  | _ => []
  end.

(** Mean absolute change between consecutive margins. *)
Definition avgAbsDelta (ms : list Q) : Q :=
  Qsum (consecutiveAbsDeltas ms)
  / inject_Z (Z.of_nat (length (consecutiveAbsDeltas ms))).

(** The margin the aggregator takes for a unit: projected when any swing
    is active, baseline otherwise. *)
Definition unitMargin (st : Page) (b : CountyBaseline) : Q :=
  let p := projectedSwing st (Some b) (Some (fips b)) in
  if anySwing st then newMargin p else baseMargin p.

(** The units of a state, as the aggregator selects them. *)
Definition unitsOf (st : Page) (sf : string) : list CountyBaseline :=
  filter (fun b => stateFips b = sf) (values (baseMap st)).

(** Solver vocabulary: [w_i], [e_i], [denom], [dUnit_i]. *)
Definition years (st : Page) : list N := sort (map_to_list (baselineByYear st)).*1.

Definition w (st : Page) (b : CountyBaseline) : Q :=
  unitWeight (totalTurnout (values (baseMap st))) b.

Definition e (st : Page) (b : CountyBaseline) : Q :=
  match solverMode st with
  | elastic => elasticity (baselineByYear st) (years st) (fips b)
  | uniform => 1
  end.

Definition denom (st : Page) : Q :=
  Qsum (map (fun b => w st b * e st b) (values (baseMap st))).

(** The margin change a stored local swing gives a unit: [gop - dem]. *)
Definition dUnit (st' : Page) (b : CountyBaseline) : Q :=
  match solverLocalSwings st' !! fips b with
  | Some loc => gop loc - dem loc
  | None => 0
  end.

(** The margin the solver's starting aggregate takes for a unit: sliders
    only, no local swing. *)
Definition sliderMargin (st : Page) (b : CountyBaseline) : Q :=
  let p := projectedSwing st (Some b) None in
  if JS.nonzero (demSwing st) || JS.nonzero (gopSwing st)
  then newMargin p else baseMargin p.

(** A list in ascending order. *)
Fixpoint ascending (l : list Q) : Prop :=
  match l with
  | [] => True
  | x :: l' => (forall y, In y l' -> x <= y) /\ ascending l'
  end.

(** The two-party spread of a pair of shares; the margin is 100 times it. *)
Definition spread (s : Swing.Shares) : Q := Swing.gShare s - Swing.dShare s.

End Spec.

(** ** Example data *)

Module Examples.

Import RustBelt.

Definition countyA : CountyBaseline := mkCounty "17001" "17" "Adams" 100 55 45.
Definition countyB : CountyBaseline := mkCounty "17003" "17" "Alexander" 300 135 165.
Definition countyZ : CountyBaseline := mkCounty "17005" "17" "Bond" 0 0 0.
Definition countyA2020 : CountyBaseline := mkCounty "17001" "17" "Adams" 100 40 60.
Definition countyB2020 : CountyBaseline := mkCounty "17003" "17" "Alexander" 300 150 150.

Definition map2024 : BaseMap := <["17001" := countyA]> (<["17003" := countyB]> ∅).
Definition map2020 : BaseMap := <["17001" := countyA2020]> (<["17003" := countyB2020]> ∅).
Definition mapZero : BaseMap := <["17005" := countyZ]> ∅.

(** The page as mounted, before any baseline has arrived, with [0] typed
    in the target field. *)
Definition initialPage : Page :=
  mkPage 0 0 (JS.PNum 0) elastic false ∅ StatusNone 0 ∅ ∅.

(** Two counties of one state, turnouts 100 and 300, margins +10 and -10. *)
Definition twoUnits (target : JS.parsed) (mode : SolverMode) : Page :=
  mkPage 0 0 target mode false ∅ StatusNone 0 map2024
         (<[2024%N := map2024]> (<[2020%N := map2020]> ∅)).

(** A scope whose only county has not reported, while swings of an
    earlier solve are still held. *)
Definition zeroTurnoutActive (target : JS.parsed) : Page :=
  mkPage 0 0 target uniform true (<["17005" := mkLocal (-1) 1]> ∅)
         StatusNone 1 mapZero ∅.

End Examples.

(** Replace every [Qmax], [Qmin] and [Qabs] by a fresh number together
    with the case split that defines it, so that linear arithmetic
    finishes the goal. *)
Ltac q_gen t lem :=
  let H := fresh "Hcase" in
  pose proof lem as H; generalize dependent t; intros.

Ltac q_cases :=
  unfold JS.max, JS.min, JS.abs in *;
  repeat match goal with
  | |- context [Qmax ?a ?b] => q_gen (Qmax a b) (Q.max_spec a b)
  | |- context [Qmin ?a ?b] => q_gen (Qmin a b) (Q.min_spec a b)
  | |- context [Qabs ?a] => q_gen (Qabs a) (conj (Qabs_pos a) (Qabs_neg a))
  | _ : context [Qmax ?a ?b] |- _ => q_gen (Qmax a b) (Q.max_spec a b)
  | _ : context [Qmin ?a ?b] |- _ => q_gen (Qmin a b) (Q.min_spec a b)
  | _ : context [Qabs ?a] |- _ => q_gen (Qabs a) (conj (Qabs_pos a) (Qabs_neg a))
  end.

(** ** Facts about the number primitives *)

Module JSFacts.

Lemma ltb_lt a b : JS.ltb a b = true <-> a < b.
Proof.
  unfold JS.ltb. rewrite negb_true_iff, <- not_true_iff_false, Qle_bool_iff.
  split; [apply Qnot_le_lt | apply Qlt_not_le].
Qed.

Lemma ltb_ge a b : JS.ltb a b = false <-> b <= a.
Proof. unfold JS.ltb. rewrite negb_false_iff, Qle_bool_iff. reflexivity. Qed.

Lemma gtb_gt a b : JS.gtb a b = true <-> b < a.
Proof. apply ltb_lt. Qed.

Lemma gtb_le a b : JS.gtb a b = false <-> a <= b.
Proof. apply ltb_ge. Qed.

Lemma leb_le a b : JS.leb a b = true <-> a <= b.
Proof. apply Qle_bool_iff. Qed.

Lemma leb_gt a b : JS.leb a b = false <-> b < a.
Proof.
  unfold JS.leb. rewrite <- not_true_iff_false, Qle_bool_iff.
  split; [apply Qnot_le_lt | apply Qlt_not_le].
Qed.

Lemma orElse_zero x : JS.orElse x 0 == x.
Proof.
  unfold JS.orElse. destruct (Qeq_bool x 0) eqn:E; [|reflexivity].
  apply Qeq_bool_iff in E. symmetry. exact E.
Qed.

Lemma orElse_nonzero x dflt : ~ x == 0 -> JS.orElse x dflt = x.
Proof.
  intros H. unfold JS.orElse. destruct (Qeq_bool x 0) eqn:E; [|reflexivity].
  apply Qeq_bool_iff in E. contradiction.
Qed.

Lemma nonzero_false x : JS.nonzero x = false <-> x == 0.
Proof. unfold JS.nonzero. rewrite negb_false_iff. apply Qeq_bool_iff. Qed.

Lemma abs_spec x : (0 <= x /\ Qabs x == x) \/ (x < 0 /\ Qabs x == - x).
Proof.
  destruct (Qlt_le_dec x 0) as [H|H].
  - right. split; [exact H|]. apply Qabs_neg. lra.
  - left. split; [exact H|]. apply Qabs_pos. exact H.
Qed.

End JSFacts.

(** ** Facts about lib/election/swing *)

Module SwingFacts.

Import Swing.

Lemma clamp_bounds v lo hi : lo <= hi -> lo <= clamp v lo hi <= hi.
Proof. intros H. unfold clamp. q_cases. lra. Qed.

Lemma clamp_id v lo hi : lo <= v <= hi -> clamp v lo hi == v.
Proof. intros H. unfold clamp. q_cases. lra. Qed.

(** The rescaling of two shares in [[0,1]] whose sum exceeds 1. *)
Lemma rescale_bounds x y :
  0 <= x <= 1 -> 0 <= y <= 1 -> 1 < x + y ->
  let scale := 1 / (x + y) in
  0 <= x * scale <= 1 /\ 0 <= y * scale <= 1 /\ x * scale + y * scale == 1.
Proof.
  intros Hx Hy Hs scale.
  assert (Hpos : 0 < scale) by (apply Qlt_shift_div_l; lra).
  assert (Hone : (x + y) * scale == 1) by (unfold scale; field; lra).
  repeat split; nra.
Qed.

Lemma rescale_ratio x y :
  1 < x + y -> ~ x == 0 ->
  (y * (1 / (x + y))) / (x * (1 / (x + y))) == y / x.
Proof. intros Hs Hx. field. split; [exact Hx | lra]. Qed.

Lemma renormalize_ok s :
  0 <= dShare s <= 1 -> 0 <= gShare s <= 1 ->
  Spec.sharesOK (dShare (renormalize s)) (gShare (renormalize s)).
Proof.
  intros Hd Hg. unfold renormalize, Spec.sharesOK.
  destruct (JS.gtb (dShare s + gShare s) 1) eqn:E; simpl.
  - apply JSFacts.gtb_gt in E.
    destruct (rescale_bounds _ _ Hd Hg E) as (H1 & H2 & H3). lra.
  - apply JSFacts.gtb_le in E. lra.
Qed.

Lemma computeSharesAfterSwing_ok d0 g0 dpp gpp :
  let s := computeSharesAfterSwing d0 g0 dpp gpp in
  Spec.sharesOK (dShare s) (gShare s).
Proof.
  unfold computeSharesAfterSwing. apply renormalize_ok; simpl;
    apply clamp_bounds; lra.
Qed.

End SwingFacts.

(** ** Visual encoding *)

Module VisualEncoding.

Import Swing.

(** C9.  For every margin [m], the bucket index of [iowaMarginBinIndex]
    is 0 when [|m| < 1], 1 when [|m| < 5], 2 when [|m| < 10], 3 when
    [|m| < 20], 4 when [|m| < 30] and 5 otherwise, hence always in
    [[0,5]]; and [extrusionFromMarginIOWA] is
    [1000 + (min(40, |m|)/40) * 18000]: the linear ramp [1000 + 450 |m|]
    up to 40 points of margin and the constant [19000] beyond. *)
Theorem bucket_and_extrusion (m : Q) :
  let i := iowaMarginBinIndex m in
  let a := Qabs m in
  let h := extrusionFromMarginIOWA m in
  ((a < 1 /\ i = 0%nat) \/ (1 <= a < 5 /\ i = 1%nat) \/ (5 <= a < 10 /\ i = 2%nat) \/
   (10 <= a < 20 /\ i = 3%nat) \/ (20 <= a < 30 /\ i = 4%nat) \/ (30 <= a /\ i = 5%nat))
  /\ (0 <= i <= 5)%nat
  /\ h == 1000 + (Qmin 40 a / 40) * 18000
  /\ ((a <= 40 /\ h == 1000 + 450 * a) \/ (40 < a /\ h == 19000)).
Proof.
  intros i a h. split; [|split; [|split]].
  - subst i a. unfold iowaMarginBinIndex, JS.abs.
    repeat match goal with
    | |- context [JS.ltb ?x ?y] =>
        let E := fresh "E" in
        destruct (JS.ltb x y) eqn:E;
        [apply JSFacts.ltb_lt in E | apply JSFacts.ltb_ge in E]
    end; tauto.
  - subst i. unfold iowaMarginBinIndex.
    repeat destruct (JS.ltb _ _); lia.
  - reflexivity.
  - subst h a. unfold extrusionFromMarginIOWA, JS.min, JS.abs.
    destruct (Q.min_spec 40 (Qabs m)) as [[Hlt Heq] | [Hle Heq]]; rewrite Heq.
    + right. split; [exact Hlt | field].
    + left. split; [exact Hle | field].
Qed.

Example bucket_of_minus_7 : iowaMarginBinIndex (-7) = 2%nat.
Proof. reflexivity. Qed.

Example extrusion_of_20 : extrusionFromMarginIOWA 20 == 10000.
Proof. reflexivity. Qed.

End VisualEncoding.

(** ** The zero-swing projection of the library *)

Module ZeroSwing.

Import Swing.

Lemma shares_in_range tv gv dv :
  1 <= tv -> 0 <= gv -> 0 <= dv -> gv + dv <= tv ->
  0 <= gv / tv <= 1 /\ 0 <= dv / tv <= 1 /\ gv / tv + dv / tv <= 1.
Proof.
  intros Ht Hg Hd Hs.
  assert (Hi : 0 < / tv) by (apply Qinv_lt_0_compat; lra).
  assert (Hone : tv * / tv == 1) by (field; lra).
  unfold Qdiv. repeat split; nra.
Qed.

(** C10.  For every baseline with [totalVotes >= 1], non-negative party
    votes and [gopVotes + demVotes <= totalVotes], the projection with
    all deltas and local overrides zero has [newMargin] equal to
    [baseMargin]; and there is a baseline with [totalVotes >= 1] and
    non-negative party votes, but [gopVotes + demVotes > totalVotes],
    whose zero-delta projection changes the margin. *)
Theorem zero_swing_identity :
  (forall tv gv dv : Q,
     1 <= tv -> 0 <= gv -> 0 <= dv -> gv + dv <= tv ->
     newMargin (computeProjectedMargin dv gv tv 0 0 0 0)
     == baseMargin (computeProjectedMargin dv gv tv 0 0 0 0))
  /\ (exists tv gv dv : Q,
        1 <= tv /\ 0 <= gv /\ 0 <= dv /\
        ~ newMargin (computeProjectedMargin dv gv tv 0 0 0 0)
          == baseMargin (computeProjectedMargin dv gv tv 0 0 0 0)).
Proof.
  split.
  - intros tv gv dv Ht Hg Hd Hs.
    unfold computeProjectedMargin, computeSharesAfterSwing, clampedShares. simpl.
    set (T := JS.max 1 (JS.orElse tv 0)).
    assert (HT : T == tv).
    { subst T. pose proof (JSFacts.orElse_zero tv) as Ho.
      unfold JS.max. generalize dependent (JS.orElse tv 0). intros o Ho.
      q_cases. lra. }
    pose proof (JSFacts.orElse_zero gv) as Hgo.
    pose proof (JSFacts.orElse_zero dv) as Hdo.
    set (g0 := JS.orElse gv 0 / T). set (d0 := JS.orElse dv 0 / T).
    assert (Hg0 : g0 == gv / tv) by (subst g0; rewrite HT, Hgo; reflexivity).
    assert (Hd0 : d0 == dv / tv) by (subst d0; rewrite HT, Hdo; reflexivity).
    destruct (shares_in_range tv gv dv Ht Hg Hd Hs) as (Rg & Rd & Rs).
    assert (Cd : clamp (d0 + (0 + 0) / 100) 0 1 == d0).
    { assert (E0 : d0 + (0 + 0) / 100 == d0) by field.
      apply Qeq_trans with (d0 + (0 + 0) / 100); [apply SwingFacts.clamp_id; lra | exact E0]. }
    assert (Cg : clamp (g0 + (0 + 0) / 100) 0 1 == g0).
    { assert (E0 : g0 + (0 + 0) / 100 == g0) by field.
      apply Qeq_trans with (g0 + (0 + 0) / 100); [apply SwingFacts.clamp_id; lra | exact E0]. }
    unfold renormalize. simpl.
    destruct (JS.gtb _ 1) eqn:E; simpl.
    + apply JSFacts.gtb_gt in E. lra.
    + rewrite Cd, Cg. reflexivity.
  - exists 100, 80, 40. repeat split; vm_compute; discriminate.
Qed.

(** The identity at a county with 1000 votes, 550 and 450 for the two
    parties. *)
Lemma zero_swing_identity_witness :
  newMargin (computeProjectedMargin 450 550 1000 0 0 0 0)
  == baseMargin (computeProjectedMargin 450 550 1000 0 0 0 0).
Proof.
  apply (proj1 zero_swing_identity 1000 550 450); vm_compute; discriminate.
Defined.

(** End-to-end scenario of the specification: baseline
    [{total 1000, gop 550, dem 450}], scenario [gop -5], [dem +5]. *)
Example end_to_end :
  baseMargin (computeProjectedMargin 450 550 1000 5 (-5) 0 0) == 10
  /\ newMargin (computeProjectedMargin 450 550 1000 5 (-5) 0 0) == 0.
Proof. split; reflexivity. Qed.

End ZeroSwing.

(** ** Sums over lists of numbers *)

Module SumFacts.

Import Spec.

Section Sums.

Context {A : Type}.

Lemma fold_left_plus (f : A -> Q) (l : list A) (a : Q) :
  fold_left (fun acc b => acc + f b) l a == a + Qsum (map f l).
Proof.
  revert a. induction l as [|x l IH]; intros a; simpl.
  - ring.
  - rewrite IH. ring.
Qed.

(** The two accumulators of the aggregation loop. *)
Lemma fold_left_pair (t s : A -> Q) (l : list A) (T0 S0 : Q) :
  let r := fold_left (fun '(T, sum) b => (T + t b, sum + s b)) l (T0, S0) in
  fst r == T0 + Qsum (map t l) /\ snd r == S0 + Qsum (map s l).
Proof.
  revert T0 S0. induction l as [|x l IH]; intros T0 S0; simpl.
  - split; ring.
  - destruct (IH (T0 + t x) (S0 + s x)) as [H1 H2].
    split; [rewrite H1 | rewrite H2]; ring.
Qed.

Lemma Qsum_ext (f h : A -> Q) (l : list A) :
  (forall x, In x l -> f x == h x) -> Qsum (map f l) == Qsum (map h l).
Proof.
  induction l as [|x l IH]; intros H; simpl; [reflexivity|].
  rewrite (H x) by (left; reflexivity).
  rewrite IH by (intros y Hy; apply H; right; exact Hy).
  reflexivity.
Qed.

Lemma Qsum_scale (c : Q) (f : A -> Q) (l : list A) :
  Qsum (map (fun x => c * f x) l) == c * Qsum (map f l).
Proof.
  induction l as [|x l IH]; simpl; [ring|]. rewrite IH. ring.
Qed.

Lemma Qsum_le (f h : A -> Q) (l : list A) :
  (forall x, In x l -> f x <= h x) -> Qsum (map f l) <= Qsum (map h l).
Proof.
  induction l as [|x l IH]; intros H; simpl; [lra|].
  assert (f x <= h x) by (apply H; left; reflexivity).
  assert (Qsum (map f l) <= Qsum (map h l))
    by (apply IH; intros y Hy; apply H; right; exact Hy).
  lra.
Qed.

Lemma Qsum_nonneg (f : A -> Q) (l : list A) :
  (forall x, In x l -> 0 <= f x) -> 0 <= Qsum (map f l).
Proof.
  induction l as [|x l IH]; intros H; simpl; [lra|].
  assert (0 <= f x) by (apply H; left; reflexivity).
  assert (0 <= Qsum (map f l)) by (apply IH; intros y Hy; apply H; right; exact Hy).
  lra.
Qed.

(** Elements of weight zero can be dropped from a sum. *)
Lemma Qsum_filter (keep : A -> bool) (f : A -> Q) (l : list A) :
  (forall x, In x l -> keep x = false -> f x == 0) ->
  Qsum (map f (List.filter keep l)) == Qsum (map f l).
Proof.
  induction l as [|x l IH]; intros H; simpl; [reflexivity|].
  assert (IH' : Qsum (map f (List.filter keep l)) == Qsum (map f l))
    by (apply IH; intros y Hy; apply H; right; exact Hy).
  destruct (keep x) eqn:E; simpl.
  - rewrite IH'. reflexivity.
  - rewrite IH', (H x) by (auto; left; reflexivity). ring.
Qed.

End Sums.

End SumFacts.

(** ** Facts about the swing transform and the aggregators of the page *)

Module RustBeltFacts.

Import RustBelt Spec SumFacts.

Lemma turnoutOf_nonneg b : 0 <= turnoutOf b.
Proof. unfold turnoutOf. q_cases. lra. Qed.

Lemma turnoutOf_pos b : 0 < totalVotes2024 b -> turnoutOf b == totalVotes2024 b.
Proof.
  intros H. unfold turnoutOf. pose proof (JSFacts.orElse_zero (totalVotes2024 b)) as Ho.
  generalize dependent (JS.orElse (totalVotes2024 b) 0). intros o Ho. q_cases. lra.
Qed.

Lemma turnoutOf_nonpos b : totalVotes2024 b <= 0 -> turnoutOf b == 0.
Proof.
  intros H. unfold turnoutOf. pose proof (JSFacts.orElse_zero (totalVotes2024 b)) as Ho.
  generalize dependent (JS.orElse (totalVotes2024 b) 0). intros o Ho. q_cases. lra.
Qed.

Lemma turnoutOf_nonneg_eq b : 0 <= totalVotes2024 b -> turnoutOf b == totalVotes2024 b.
Proof.
  intros H. unfold turnoutOf. pose proof (JSFacts.orElse_zero (totalVotes2024 b)) as Ho.
  generalize dependent (JS.orElse (totalVotes2024 b) 0). intros o Ho. q_cases. lra.
Qed.

(** The early return of [projectedSwing]. *)
Lemma projectedSwing_not_reporting st b f :
  totalVotes2024 b <= 0 ->
  projectedSwing st (Some b) f = mkProjection 0 0 0 None None None.
Proof.
  intros H. unfold projectedSwing.
  apply JSFacts.leb_le in H. rewrite H. reflexivity.
Qed.

(** The projected shares of a reporting county, named as in the source. *)
Lemma projectedSwing_reporting st b f :
  0 < totalVotes2024 b ->
  let gShare0 := votesGop2024 b / JS.max 1 (totalVotes2024 b) in
  let dShare0 := votesDem2024 b / JS.max 1 (totalVotes2024 b) in
  let loc := localSwingFor st f in
  let dC := Swing.clamp (dShare0 + (demSwing st / 100) + (dem loc / 100)) 0 1 in
  let gC := Swing.clamp (gShare0 + (gopSwing st / 100) + (gop loc / 100)) 0 1 in
  let s := Swing.renormalize (Swing.mkShares dC gC) in
  projectedSwing st (Some b) f =
  mkProjection ((Swing.gShare s - Swing.dShare s) * 100 - (gShare0 - dShare0) * 100)
               ((Swing.gShare s - Swing.dShare s) * 100)
               ((gShare0 - dShare0) * 100)
               (Some (mkGD gShare0 dShare0))
               (Some (mkGD (Swing.gShare s) (Swing.dShare s)))
               (Some loc).
Proof.
  intros H gShare0 dShare0 loc dC gC s. unfold projectedSwing.
  apply JSFacts.leb_gt in H. rewrite H.
  fold gShare0 dShare0 loc. fold dC gC.
  subst s. unfold Swing.renormalize. simpl.
  destruct (JS.gtb (dC + gC) 1); reflexivity.
Qed.

Lemma projectedSwing_shares_ok st base f :
  match newShares (projectedSwing st base f) with
  | Some s => sharesOK (d s) (g s)
  | None => True
  end.
Proof.
  destruct base as [b|]; [|exact I].
  destruct (Qlt_le_dec 0 (totalVotes2024 b)) as [Hpos|Hle].
  - rewrite (projectedSwing_reporting st b f Hpos). simpl.
    apply SwingFacts.renormalize_ok; simpl; apply SwingFacts.clamp_bounds; lra.
  - rewrite (projectedSwing_not_reporting st b f Hle). exact I.
Qed.

(** What the aggregation loop computes, in sums. *)
Lemma weightedMargin_sums (m : CountyBaseline -> Q) (l : list CountyBaseline) :
  let T := Qsum (map turnoutOf l) in
  (0 < T -> weightedMargin m l == Qsum (map (fun b => m b * turnoutOf b) l) / T)
  /\ (T <= 0 -> weightedMargin m l == 0).
Proof.
  intros T. destruct l as [|b0 l].
  - subst T. simpl. split; [lra | reflexivity].
  - unfold weightedMargin.
    pose proof (fold_left_pair turnoutOf (fun b => m b / 100 * turnoutOf b) (b0 :: l) 0 0) as HP.
    cbv zeta in HP.
    match type of HP with
    | fst ?r == _ /\ _ =>
        match goal with |- context [fold_left ?F ?L ?I] =>
          change (fold_left F L I) with r
        end;
        destruct r as [T' S'] eqn:Er
    end.
    simpl fst in HP. simpl snd in HP. destruct HP as [HT HS].
    fold T in HT.
    assert (HS' : S' == (1 / 100) * Qsum (map (fun b => m b * turnoutOf b) (b0 :: l))).
    { rewrite HS, Qplus_0_l, <- Qsum_scale.
      apply Qsum_ext. intros x _. field. }
    destruct (JS.gtb T' 0) eqn:E.
    + apply JSFacts.gtb_gt in E. split.
      * intros HTpos. rewrite HS'.
        assert (HTeq : T' == T) by (rewrite HT; ring).
        rewrite HTeq. field. lra.
      * intros HTle. lra.
    + apply JSFacts.gtb_le in E. split.
      * intros HTpos. lra.
      * intros _. reflexivity.
Qed.

Lemma reporting_In (l : list CountyBaseline) b :
  In b (reporting l) <-> In b l /\ 0 < totalVotes2024 b.
Proof.
  unfold reporting. rewrite filter_In, JSFacts.gtb_gt. reflexivity.
Qed.

(** Sums weighted by turnout only see the reporting counties. *)
Lemma Qsum_reporting (f : CountyBaseline -> Q) (l : list CountyBaseline) :
  Qsum (map (fun b => f b * totalVotes2024 b) (reporting l))
  == Qsum (map (fun b => f b * turnoutOf b) l).
Proof.
  transitivity (Qsum (map (fun b => f b * turnoutOf b) (reporting l))).
  - apply Qsum_ext. intros x Hx. apply reporting_In in Hx as [_ Hpos].
    rewrite (turnoutOf_pos x Hpos). reflexivity.
  - apply Qsum_filter. intros x _ Hx. apply JSFacts.gtb_le in Hx.
    rewrite (turnoutOf_nonpos x Hx). ring.
Qed.

Lemma Qsum_reporting_turnout (l : list CountyBaseline) :
  Qsum (map totalVotes2024 (reporting l)) == Qsum (map turnoutOf l).
Proof.
  pose proof (Qsum_reporting (fun _ => 1) l) as H.
  rewrite (Qsum_ext totalVotes2024 (fun b => 1 * totalVotes2024 b)) by (intros; ring).
  rewrite H. apply Qsum_ext. intros; ring.
Qed.

Lemma reporting_sum_pos (l : list CountyBaseline) :
  reporting l <> [] -> 0 < Qsum (map totalVotes2024 (reporting l)).
Proof.
  intros Hne.
  assert (Hall : forall x, In x (reporting l) -> 0 < totalVotes2024 x)
    by (intros x Hx; apply reporting_In in Hx; tauto).
  revert Hne Hall. generalize (reporting l). intros r Hne Hall.
  destruct r as [|x r]; [contradiction|]. simpl.
  assert (0 < totalVotes2024 x) by (apply Hall; left; reflexivity).
  assert (0 <= Qsum (map totalVotes2024 r)).
  { apply Qsum_nonneg. intros y Hy. apply Qlt_le_weak, Hall. right. exact Hy. }
  lra.
Qed.

Lemma reporting_nil_sum (l : list CountyBaseline) :
  reporting l = [] -> Qsum (map turnoutOf l) == 0.
Proof.
  intros H. rewrite <- Qsum_reporting_turnout, H. reflexivity.
Qed.

End RustBeltFacts.

(** ** The swing transform *)

Module SwingTransform.

Import RustBelt Spec RustBeltFacts.

(** C2.  The shares returned by the swing transform satisfy
    [0 <= gShare <= 1], [0 <= dShare <= 1] and [gShare + dShare <= 1],
    whatever the baseline, the global deltas and the local overrides
    are, and they are the clamped pair when that sums to at most 1 and
    the clamped pair times [1 / (dShare + gShare)] otherwise.  This holds
    of the library ([computeSharesAfterSwing]) and of the page
    ([projectedSwing]), which returns shares for every record with
    turnout, made of the record's vote shares, the two sliders and the
    local override of the county, and for no other record. *)
Theorem share_bound :
  (forall d0 g0 dpp gpp : Q,
     let s := Swing.computeSharesAfterSwing d0 g0 dpp gpp in
     sharesOK (Swing.dShare s) (Swing.gShare s))
  /\ (forall (st : Page) (base : option CountyBaseline) (f : option string),
        match newShares (projectedSwing st base f) with
        | Some s => sharesOK (d s) (g s)
        | None => True
        end)
  /\ (forall d0 g0 dpp gpp : Q,
        let dC := Swing.clamp (d0 + dpp / 100) 0 1 in
        let gC := Swing.clamp (g0 + gpp / 100) 0 1 in
        let s := Swing.computeSharesAfterSwing d0 g0 dpp gpp in
        (0 <= dC <= 1 /\ 0 <= gC <= 1)
        /\ ((dC + gC <= 1 /\ s = Swing.mkShares dC gC)
            \/ (1 < dC + gC /\ Swing.dShare s == dC / (dC + gC)
                            /\ Swing.gShare s == gC / (dC + gC))))
  /\ (forall (st : Page) (b : CountyBaseline) (f : option string),
        let loc := localSwingFor st f in
        let dC := Swing.clamp (votesDem2024 b / JS.max 1 (totalVotes2024 b)
                               + demSwing st / 100 + dem loc / 100) 0 1 in
        let gC := Swing.clamp (votesGop2024 b / JS.max 1 (totalVotes2024 b)
                               + gopSwing st / 100 + gop loc / 100) 0 1 in
        0 < totalVotes2024 b ->
        exists s, newShares (projectedSwing st (Some b) f) = Some s
                  /\ sharesOK (d s) (g s)
                  /\ ((dC + gC <= 1 /\ d s = dC /\ g s = gC)
                      \/ (1 < dC + gC /\ d s = dC * (1 / (dC + gC))
                                      /\ g s = gC * (1 / (dC + gC)))))
  /\ (forall (st : Page) (base : option CountyBaseline) (f : option string),
        is_Some (newShares (projectedSwing st base f)) ->
        exists b, base = Some b /\ 0 < totalVotes2024 b).
Proof.
  split; [|split; [|split; [|split]]].
  - intros. apply SwingFacts.computeSharesAfterSwing_ok.
  - intros. apply projectedSwing_shares_ok.
  - intros d0 g0 dpp gpp dC gC s.
    assert (Hd : 0 <= dC <= 1) by (apply SwingFacts.clamp_bounds; lra).
    assert (Hg : 0 <= gC <= 1) by (apply SwingFacts.clamp_bounds; lra).
    split; [split; assumption|].
    subst s. unfold Swing.computeSharesAfterSwing, Swing.clampedShares, Swing.renormalize.
    fold dC gC. simpl.
    destruct (JS.gtb (dC + gC) 1) eqn:E.
    + apply JSFacts.gtb_gt in E. right. simpl.
      split; [exact E|]. split; field; lra.
    + apply JSFacts.gtb_le in E. left. split; [exact E | reflexivity].
  - intros st b f loc dC gC Hpos.
    pose proof (projectedSwing_shares_ok st (Some b) f) as Hok.
    rewrite (projectedSwing_reporting st b f Hpos) in Hok |- *.
    cbn [newShares] in Hok |- *. fold loc in Hok |- *. fold dC gC in Hok |- *.
    eexists. split; [reflexivity|]. split; [exact Hok|].
    cbn [d g]. unfold Swing.renormalize. cbn [Swing.dShare Swing.gShare].
    destruct (JS.gtb (dC + gC) 1) eqn:E.
    + apply JSFacts.gtb_gt in E. right. cbn [Swing.dShare Swing.gShare].
      split; [exact E|]. split; reflexivity.
    + apply JSFacts.gtb_le in E. left. split; [exact E|]. split; reflexivity.
  - intros st base f [s Hs].
    destruct base as [b|]; [|discriminate Hs].
    destruct (Qlt_le_dec 0 (totalVotes2024 b)) as [Hpos|Hle].
    + exists b. split; [reflexivity | exact Hpos].
    + rewrite (projectedSwing_not_reporting st b f Hle) in Hs. discriminate Hs.
Qed.

(** A 55/45 county of 100 votes under a Republican swing of 10 points:
    the clamped shares 0.45 and 0.65 sum to 1.1 and are both divided by
    it. *)
Lemma share_bound_witness :
  let st := mkPage 0 10 JS.PNaN uniform false ∅ StatusNone 0 Examples.map2024 ∅ in
  exists s, newShares (projectedSwing st (Some Examples.countyA) (Some "17001"%string)) = Some s
            /\ sharesOK (d s) (g s).
Proof.
  cbv zeta.
  assert (Hpos : 0 < totalVotes2024 Examples.countyA) by reflexivity.
  destruct (proj1 (proj2 (proj2 (proj2 share_bound)))
              (mkPage 0 10 JS.PNaN uniform false ∅ StatusNone 0 Examples.map2024 ∅)
              Examples.countyA (Some "17001"%string) Hpos) as (s & Hs & Hok & _).
  exists s. split; [exact Hs | exact Hok].
Defined.

(** C8.  Whenever the clamped shares sum to more than 1 and the clamped
    Democratic share is not zero, the ratio [gShare/dShare] of the
    returned shares equals the ratio of the clamped shares, in the
    library and in the page. *)
Theorem rescale_preserves_ratio :
  (forall d0 g0 dpp gpp : Q,
     let c := Swing.clampedShares d0 g0 dpp gpp in
     let s := Swing.computeSharesAfterSwing d0 g0 dpp gpp in
     1 < Swing.gShare c + Swing.dShare c ->
     ~ Swing.dShare c == 0 ->
     Swing.gShare s / Swing.dShare s == Swing.gShare c / Swing.dShare c)
  /\ (forall (st : Page) (b : CountyBaseline) (f : option string),
        let loc := localSwingFor st f in
        let dC := Swing.clamp (votesDem2024 b / JS.max 1 (totalVotes2024 b)
                               + demSwing st / 100 + dem loc / 100) 0 1 in
        let gC := Swing.clamp (votesGop2024 b / JS.max 1 (totalVotes2024 b)
                               + gopSwing st / 100 + gop loc / 100) 0 1 in
        0 < totalVotes2024 b ->
        1 < gC + dC ->
        ~ dC == 0 ->
        exists s, newShares (projectedSwing st (Some b) f) = Some s
                  /\ g s / d s == gC / dC).
Proof.
  split.
  - intros d0 g0 dpp gpp c s Hsum Hd.
    subst s. unfold Swing.computeSharesAfterSwing. fold c.
    unfold Swing.renormalize.
    assert (E : JS.gtb (Swing.dShare c + Swing.gShare c) 1 = true)
      by (apply JSFacts.gtb_gt; lra).
    rewrite E. generalize dependent c. intros c Hsum Hd E. simpl.
    apply SwingFacts.rescale_ratio; [lra | exact Hd].
  - intros st b f loc dC gC Hpos Hsum Hd.
    rewrite (projectedSwing_reporting st b f Hpos). simpl.
    fold loc. fold dC gC. eexists. split; [reflexivity|]. simpl.
    unfold Swing.renormalize. simpl.
    assert (E : JS.gtb (dC + gC) 1 = true) by (apply JSFacts.gtb_gt; lra).
    rewrite E. simpl. apply SwingFacts.rescale_ratio; [lra | exact Hd].
Qed.

(** Baseline shares 0.4 and 0.8 without any swing: the clamped shares sum
    to 1.2 and the ratio 2 survives the rescaling. *)
Lemma rescale_preserves_ratio_witness :
  let s := Swing.computeSharesAfterSwing 0.4 0.8 0 0 in
  Swing.gShare s / Swing.dShare s == 2.
Proof.
  intros s.
  transitivity (Swing.gShare (Swing.clampedShares 0.4 0.8 0 0)
                / Swing.dShare (Swing.clampedShares 0.4 0.8 0 0)).
  - apply (proj1 rescale_preserves_ratio 0.4 0.8 0 0);
      vm_compute; first [reflexivity | discriminate].
  - vm_compute. reflexivity.
Defined.

(** C7, counterexample.  A county that has not reported carries no share
    fields: at a county with [totalVotes = 0] the transform returns no
    shares at all, hence no zero shares. *)
Lemma not_reporting_has_no_shares :
  let p := projectedSwing Examples.initialPage (Some Examples.countyZ) (Some "17005"%string) in
  totalVotes2024 Examples.countyZ <= 0
  /\ newShares p = None
  /\ baseShares p = None
  /\ ~ (exists s, newShares p = Some s /\ g s == 0 /\ d s == 0).
Proof.
  cbv zeta. split; [vm_compute; discriminate|].
  split; [reflexivity|]. split; [reflexivity|].
  intros [s [H _]]. vm_compute in H. discriminate H.
Qed.

(** The library's [computeProjectedMargin] has no early return: with
    [totalVotes = 0] it divides by [max(1, 0) = 1] and lets the swing act
    on zero shares. *)
Example library_without_turnout :
  Swing.baseMargin (Swing.computeProjectedMargin 0 0 0 5 (-5) 0 0) == 0
  /\ Swing.newMargin (Swing.computeProjectedMargin 0 0 0 5 (-5) 0 0) == -5.
Proof. split; reflexivity. Qed.

(** C7 (amended).  For every baseline record with [totalVotes <= 0] and
    every scenario, [projectedSwing] returns swing, base margin and new
    margin zero and no share fields; it returns the same for an absent
    record; and an aggregate over units none of which reports is 0.
    Both functions are total: no input makes them fail. *)
Theorem not_reporting_is_silent :
  (forall (st : Page) (b : CountyBaseline) (f : option string),
     totalVotes2024 b <= 0 ->
     let p := projectedSwing st (Some b) f in
     swing p = 0 /\ baseMargin p = 0 /\ newMargin p = 0
     /\ baseShares p = None /\ newShares p = None /\ local p = None)
  /\ (forall (st : Page) (f : option string),
        projectedSwing st None f = mkProjection 0 0 0 None None None)
  /\ (forall (st : Page) (sf : string),
        reporting (unitsOf st sf) = [] ->
        computeStateProjectedMargin st sf == 0
        /\ computeStateBaselineMargin st sf == 0).
Proof.
  split; [|split].
  - intros st b f H p. subst p.
    rewrite (projectedSwing_not_reporting st b f H). simpl. tauto.
  - reflexivity.
  - intros st sf H. apply reporting_nil_sum in H.
    unfold computeStateProjectedMargin, computeStateBaselineMargin.
    split; apply weightedMargin_sums; fold (unitsOf st sf); rewrite H; lra.
Qed.

Lemma not_reporting_is_silent_witness :
  newMargin (projectedSwing (Examples.zeroTurnoutActive (JS.PNum 0))
               (Some Examples.countyZ) (Some "17005"%string)) = 0.
Proof.
  apply (proj1 not_reporting_is_silent (Examples.zeroTurnoutActive (JS.PNum 0))
           Examples.countyZ (Some "17005"%string)).
  vm_compute. discriminate.
Defined.

End SwingTransform.

(** ** The aggregator *)

Module Aggregator.

Import RustBelt Spec SumFacts RustBeltFacts.

Lemma aggregate_reporting (m : CountyBaseline -> Q) (l : list CountyBaseline) :
  reporting l <> [] -> weightedMargin m l == aggregate m (reporting l).
Proof.
  intros Hne. apply reporting_sum_pos in Hne.
  unfold aggregate. rewrite Qsum_reporting.
  destruct (weightedMargin_sums m l) as [Hpos _].
  rewrite Hpos by (rewrite <- Qsum_reporting_turnout; exact Hne).
  rewrite Qsum_reporting_turnout. reflexivity.
Qed.

Lemma aggregate_all (m : CountyBaseline -> Q) (l : list CountyBaseline) :
  (forall b, In b l -> 0 <= totalVotes2024 b) ->
  0 < Qsum (map totalVotes2024 l) ->
  weightedMargin m l == aggregate m l.
Proof.
  intros Hnn Hpos.
  assert (HT : Qsum (map turnoutOf l) == Qsum (map totalVotes2024 l)).
  { apply Qsum_ext. intros x Hx. apply turnoutOf_nonneg_eq, Hnn, Hx. }
  assert (HS : Qsum (map (fun b => m b * turnoutOf b) l)
               == Qsum (map (fun b => m b * totalVotes2024 b) l)).
  { apply Qsum_ext. intros x Hx. rewrite (turnoutOf_nonneg_eq x (Hnn x Hx)). reflexivity. }
  destruct (weightedMargin_sums m l) as [H _].
  rewrite H by (rewrite HT; exact Hpos).
  unfold aggregate. rewrite HT, HS. reflexivity.
Qed.

(** C3.  For the units of a state, the aggregate margin of
    [computeStateProjectedMargin] is [Σ(margin_i * turnout_i) / Σ(turnout_i)]
    with [margin_i] the projected margin when any swing is active and the
    baseline margin otherwise, and [turnout_i] the baseline [totalVotes]:
    over all units when no [totalVotes] is negative and the total turnout
    is positive, and equally over the units with positive turnout alone
    (units without turnout weigh nothing in numerator and denominator);
    it is 0 for an empty collection and when the total turnout is zero
    (no unit has turnout).  For two
    units with turnouts 100 and 300 and margins +10 and -10 it is -5. *)
Theorem aggregate_margin (st : Page) (sf : string) :
  let units := unitsOf st sf in
  let agg := computeStateProjectedMargin st sf in
  ((forall b, In b units -> 0 <= totalVotes2024 b) ->
   0 < Qsum (map totalVotes2024 units) ->
   agg == aggregate (unitMargin st) units)
  /\ (reporting units <> [] -> agg == aggregate (unitMargin st) (reporting units))
  /\ (reporting units = [] -> agg == 0)
  /\ ((forall b, In b units -> 0 <= totalVotes2024 b) ->
      Qsum (map totalVotes2024 units) == 0 -> agg == 0)
  /\ (units = [] -> agg = 0)
  /\ (let ex := Examples.twoUnits JS.PNaN uniform in
      map totalVotes2024 (unitsOf ex "17") ≡ₚ [100; 300]
      /\ unitMargin ex Examples.countyA == 10
      /\ unitMargin ex Examples.countyB == -10
      /\ computeStateProjectedMargin ex "17" == -5).
Proof.
  intros units agg. subst agg. unfold computeStateProjectedMargin.
  fold (unitsOf st sf). fold units.
  change (fun b => let p := projectedSwing st (Some b) (Some (fips b)) in
                   if anySwing st then newMargin p else baseMargin p)
    with (unitMargin st).
  split; [|split; [|split; [|split; [|split]]]].
  - apply aggregate_all.
  - apply aggregate_reporting.
  - intros H. apply reporting_nil_sum in H.
    apply weightedMargin_sums. rewrite H. lra.
  - intros Hnn H0. apply weightedMargin_sums.
    rewrite (Qsum_ext turnoutOf totalVotes2024)
      by (intros x Hx; apply turnoutOf_nonneg_eq, Hnn, Hx).
    rewrite H0. lra.
  - intros H. rewrite H. reflexivity.
  - cbv zeta. split; [|split; [|split]].
    + vm_compute. apply perm_swap.
    + vm_compute. reflexivity.
    + vm_compute. reflexivity.
    + vm_compute. reflexivity.
Qed.

(** The formula at the two example counties. *)
Lemma aggregate_margin_witness :
  let ex := Examples.twoUnits JS.PNaN uniform in
  computeStateProjectedMargin ex "17"
  == aggregate (unitMargin ex) (unitsOf ex "17").
Proof.
  cbv zeta.
  apply (proj1 (aggregate_margin (Examples.twoUnits JS.PNaN uniform) "17")).
  - assert (E : unitsOf (Examples.twoUnits JS.PNaN uniform) "17"
                = [Examples.countyB; Examples.countyA])
      by (vm_compute; reflexivity).
    rewrite E. intros b [<- | [<- | []]]; vm_compute; discriminate.
  - vm_compute. reflexivity.
Defined.

(** Zero-turnout unit of the specification: a unit without turnout next
    to a unit of turnout 500 and margin +8 leaves the aggregate at +8. *)
Example zero_turnout_unit :
  let unitB := mkCounty "17003" "17" "Alexander" 500 270 230 in
  let st := mkPage 0 0 JS.PNaN uniform false ∅ StatusNone 0
              (<["17005" := Examples.countyZ]> (<["17003" := unitB]> ∅)) ∅ in
  baseMargin (projectedSwing st (Some Examples.countyZ) (Some "17005"%string)) = 0
  /\ unitMargin st unitB == 8
  /\ computeStateProjectedMargin st "17" == 8.
Proof. cbv zeta. repeat split; vm_compute; reflexivity. Qed.

End Aggregator.

(** ** The elasticity estimate *)

Module Elasticity.

Import RustBelt Spec SumFacts RustBeltFacts.

(** The loop over [years] pushes the no-swing margin of every cycle with
    positive turnout, in order. *)
Lemma cycleMargins_from (yearMaps : gmap N BaseMap) (f : string) (years : list N) (acc : list Q) :
  fold_left
    (fun margins y =>
       match cycleRecord yearMaps y f with
       | Some m =>
           if JS.gtb (totalVotes2024 m) 0 then
             let g0 := votesGop2024 m / JS.max 1 (totalVotes2024 m) in
             let d0 := votesDem2024 m / JS.max 1 (totalVotes2024 m) in
             margins ++ [(g0 - d0) * 100]
           else margins
       | None => margins
       end)
    years acc
  = acc ++ map noSwingMargin (positiveCycles yearMaps years f).
Proof.
  revert acc. unfold positiveCycles, reporting.
  induction years as [|y years IH]; intros acc; simpl.
  - symmetry. apply app_nil_r.
  - rewrite IH. destruct (cycleRecord yearMaps y f) as [m|]; [|reflexivity].
    simpl. destruct (JS.gtb (totalVotes2024 m) 0); [|reflexivity].
    simpl. rewrite <- app_assoc. reflexivity.
Qed.

Lemma cycleMargins_spec (yearMaps : gmap N BaseMap) (years : list N) (f : string) :
  cycleMargins yearMaps years f = map noSwingMargin (positiveCycles yearMaps years f).
Proof. unfold cycleMargins. rewrite cycleMargins_from. reflexivity. Qed.

(** Past its first element, the loop on [a :: l] is the loop on [l]. *)
Lemma absDeltaStep_shift (a : Q) (l : list Q) (idxs : list nat) (acc : Q * nat) :
  Forall (fun i => (1 <= i)%nat) idxs ->
  fold_left (absDeltaStep (a :: l)) (map S idxs) acc
  = fold_left (absDeltaStep l) idxs acc.
Proof.
  intros H. revert acc. induction H as [|i idxs Hi _ IH]; intros acc; simpl.
  - reflexivity.
  - rewrite <- IH. f_equal. destruct acc as [sumAbs cnt].
    unfold absDeltaStep. destruct i as [|j]; [lia|].
    replace (S (S j) - 1)%nat with (S j) by lia.
    replace (S j - 1)%nat with j by lia. reflexivity.
Qed.

Lemma absDeltaLoop_from (l : list Q) (acc : Q * nat) :
  let r := fold_left (absDeltaStep l) (seq 1 (length l - 1)) acc in
  fst r == fst acc + Qsum (consecutiveAbsDeltas l)
  /\ snd r = (snd acc + length (consecutiveAbsDeltas l))%nat.
Proof.
  revert acc. induction l as [|a l IH]; intros acc.
  - simpl. split; [ring | lia].
  - destruct l as [|b l].
    + simpl. split; [ring | lia].
    + change (length (a :: b :: l) - 1)%nat with (S (length l)).
      rewrite <- cons_seq, <- seq_shift. simpl fold_left.
      rewrite absDeltaStep_shift
        by (apply List.Forall_forall; intros i Hi; apply in_seq in Hi; lia).
      specialize (IH (absDeltaStep (a :: b :: l) acc 1%nat)).
      change (length (b :: l) - 1)%nat with (length l - 0)%nat in IH.
      rewrite Nat.sub_0_r in IH. cbv zeta in IH. destruct IH as [IH1 IH2].
      split.
      * rewrite IH1. destruct acc as [sumAbs cnt]. simpl. ring.
      * rewrite IH2. destruct acc as [sumAbs cnt]. simpl. lia.
Qed.

Lemma consecutiveAbsDeltas_length (l : list Q) :
  length (consecutiveAbsDeltas l) = (length l - 1)%nat.
Proof.
  induction l as [|a l IH]; [reflexivity|].
  destruct l as [|b l]; [reflexivity|].
  change (consecutiveAbsDeltas (a :: b :: l))
    with (Qabs (b - a) :: consecutiveAbsDeltas (b :: l)).
  simpl length in *. lia.
Qed.

Lemma elastOfMargins_short (l : list Q) :
  (length l < 2)%nat -> elastOfMargins l = 1.
Proof.
  intros H. unfold elastOfMargins.
  destruct (2 <=? length l)%nat eqn:E; [|reflexivity].
  apply Nat.leb_le in E. lia.
Qed.

Lemma elastOfMargins_long (l : list Q) :
  (2 <= length l)%nat ->
  elastOfMargins l == Swing.clamp (0.5 + avgAbsDelta l / 5) 0.5 3.
Proof.
  intros H. unfold elastOfMargins.
  destruct (2 <=? length l)%nat eqn:E; [|apply Nat.leb_gt in E; lia].
  unfold absDeltaLoop.
  destruct (absDeltaLoop_from l (0, 0%nat)) as [H1 H2].
  destruct (fold_left (absDeltaStep l) (seq 1 (length l - 1)) (0, 0%nat))
    as [sumAbs cnt].
  simpl in H1, H2. rewrite Qplus_0_l in H1.
  assert (Hc : cnt = length (consecutiveAbsDeltas l)) by exact H2.
  destruct cnt as [|c].
  - rewrite consecutiveAbsDeltas_length in Hc. lia.
  - assert (Havg : sumAbs / inject_Z (Z.of_nat (S c)) == avgAbsDelta l).
    { unfold avgAbsDelta. rewrite <- Hc, H1. reflexivity. }
    assert (Hfifth : sumAbs / inject_Z (Z.of_nat (S c)) / 5 == avgAbsDelta l / 5)
      by (rewrite Havg; reflexivity).
    unfold Swing.clamp.
    generalize dependent (sumAbs / inject_Z (Z.of_nat (S c)) / 5).
    generalize (avgAbsDelta l / 5). intros A avg Hfifth.
    q_cases. lra.
Qed.

Lemma elastOfMargins_range (l : list Q) : 0.5 <= elastOfMargins l <= 3.
Proof.
  destruct (le_lt_dec 2 (length l)) as [H|H].
  - rewrite (elastOfMargins_long l H). apply SwingFacts.clamp_bounds. lra.
  - rewrite (elastOfMargins_short l H). lra.
Qed.

Lemma elasticity_range (yearMaps : gmap N BaseMap) (years : list N) (f : string) :
  0.5 <= elasticity yearMaps years f <= 3.
Proof. apply elastOfMargins_range. Qed.

(** C4.  For every unit [f] and every list of baseline cycles, the
    margins the estimator works on are the no-swing margins of the cycles
    with positive turnout, in order; the estimate is 1 when fewer than 2
    such cycles exist and [clamp(0.5 + avgAbsDelta / 5, 0.5, 3)]
    otherwise, [avgAbsDelta] being the mean absolute change between
    consecutive margins; and it always lies in [[0.5, 3]]. *)
Theorem elasticity_estimate (yearMaps : gmap N BaseMap) (years : list N) (f : string) :
  let cycles := positiveCycles yearMaps years f in
  let margins := map noSwingMargin cycles in
  let e := elasticity yearMaps years f in
  cycleMargins yearMaps years f = margins
  /\ (((length cycles < 2)%nat /\ e = 1)
      \/ ((2 <= length cycles)%nat
          /\ e == Swing.clamp (0.5 + avgAbsDelta margins / 5) 0.5 3))
  /\ 0.5 <= e <= 3.
Proof.
  intros cycles margins e.
  assert (Hm : cycleMargins yearMaps years f = margins) by apply cycleMargins_spec.
  split; [exact Hm|]. split; [|apply elasticity_range].
  subst e. unfold elasticity. rewrite Hm.
  assert (Hlen : length margins = length cycles) by (subst margins; apply length_map).
  destruct (le_lt_dec 2 (length cycles)) as [H|H].
  - right. split; [exact H|]. apply elastOfMargins_long. lia.
  - left. split; [exact H|]. apply elastOfMargins_short. lia.
Qed.

(** Margins -20 then +10 then 0 over three cycles: mean change 20, so the
    estimate is capped at 3; a single cycle gives the neutral 1. *)
Example elasticity_three_cycles : elastOfMargins [-20; 10; 0] == 3.
Proof. reflexivity. Qed.

Example elasticity_two_cycles : elastOfMargins [10; 12] == 0.9.
Proof. reflexivity. Qed.

Example elasticity_one_cycle : elastOfMargins [10] = 1.
Proof. reflexivity. Qed.

End Elasticity.

(** ** The targeted outcome solver *)

Module Solver.

Import RustBelt Spec SumFacts RustBeltFacts.

Section MapLoops.

Context {A V : Type} (k : A -> string) (v : A -> V).
Hypothesis v_of_key : forall a a', k a = k a' -> v a = v a'.

(** A loop of [m.set(k(x), v(x))] leaves, under the key of every element
    it went through, the value of that element. *)
Lemma fold_set_keeps (l : list A) (m : gmap string V) (a : A) :
  m !! k a = Some (v a) ->
  fold_left (fun m x => <[k x := v x]> m) l m !! k a = Some (v a).
Proof.
  revert m. induction l as [|x l IH]; intros m H; simpl; [exact H|].
  apply IH. destruct (decide (k x = k a)) as [E|E].
  - rewrite E, lookup_insert_eq. f_equal. apply v_of_key. exact E.
  - rewrite lookup_insert_ne by exact E. exact H.
Qed.

Lemma fold_set_lookup (l : list A) (m : gmap string V) (a : A) :
  In a l ->
  fold_left (fun m x => <[k x := v x]> m) l m !! k a = Some (v a).
Proof.
  revert m. induction l as [|x l IH]; intros m H; simpl; [destruct H|].
  destruct H as [-> | H].
  - apply fold_set_keeps. apply lookup_insert_eq.
  - apply IH. exact H.
Qed.

End MapLoops.

(** First component of a loop with two accumulators, when it does not
    read the second. *)
Lemma fold_left_fst {A C X : Type} (f : A * C -> X -> A * C) (F : A -> X -> A) :
  (forall a c x, fst (f (a, c) x) = F a x) ->
  forall l acc, fst (fold_left f l acc) = fold_left F l (fst acc).
Proof.
  intros H l. induction l as [|x l IH]; intros [a c]; simpl; [reflexivity|].
  rewrite IH. f_equal. apply H.
Qed.

(** [eMap.get(b.fips)||1] is the elasticity of the county. *)
Lemma eMap_lookup (yearMaps : gmap N BaseMap) (ys : list N)
    (entries : list CountyBaseline) (b : CountyBaseline) :
  In b entries ->
  getOr (buildEMap yearMaps ys entries) (fips b) 1 = elasticity yearMaps ys (fips b).
Proof.
  intros Hb. unfold getOr, buildEMap.
  rewrite (fold_set_lookup fips (fun x => elasticity yearMaps ys (fips x)))
    by (try exact Hb; intros a a' E; rewrite E; reflexivity).
  apply JSFacts.orElse_nonzero.
  pose proof (Elasticity.elasticity_range yearMaps ys (fips b)). lra.
Qed.

Lemma unitElasticity_spec (st : Page) (b : CountyBaseline) :
  In b (values (baseMap st)) ->
  unitElasticity (solverMode st)
    (buildEMap (baselineByYear st) (years st) (values (baseMap st))) b
  = e st b.
Proof.
  intros Hb. unfold unitElasticity, e.
  destruct (solverMode st); [reflexivity|]. apply eMap_lookup. exact Hb.
Qed.

Lemma e_range (st : Page) (b : CountyBaseline) : 0.5 <= e st b <= 3.
Proof.
  unfold e. destruct (solverMode st); [lra|]. apply Elasticity.elasticity_range.
Qed.

Lemma totalTurnout_sum (entries : list CountyBaseline) :
  totalTurnout entries == Qsum (map turnoutOf entries).
Proof. unfold totalTurnout. rewrite fold_left_plus. ring. Qed.

(** The weights sum to one. *)
Lemma weights_sum (st : Page) :
  0 < totalTurnout (values (baseMap st)) ->
  Qsum (map (w st) (values (baseMap st))) == 1.
Proof.
  intros HT. unfold w, unitWeight.
  rewrite (Qsum_ext _ (fun b => / totalTurnout (values (baseMap st)) * turnoutOf b))
    by (intros; field; lra).
  rewrite Qsum_scale, <- totalTurnout_sum. field. lra.
Qed.

Lemma w_nonneg (st : Page) (b : CountyBaseline) :
  0 < totalTurnout (values (baseMap st)) -> 0 <= w st b.
Proof.
  intros HT. unfold w, unitWeight.
  apply Qle_shift_div_l; [exact HT|]. pose proof (turnoutOf_nonneg b). lra.
Qed.

(** [denom] is at least one half, so the guard [denom<=0] stays idle. *)
Lemma denom_lower (st : Page) :
  0 < totalTurnout (values (baseMap st)) -> 0.5 <= denom st.
Proof.
  intros HT. unfold denom.
  apply Qle_trans with (Qsum (map (fun b => 0.5 * w st b) (values (baseMap st)))).
  - rewrite Qsum_scale, (weights_sum st HT). lra.
  - apply Qsum_le. intros b _.
    pose proof (w_nonneg st b HT). pose proof (e_range st b). nra.
Qed.

Lemma buildDenom_sum (mode : SolverMode) (eMap : gmap string Q) (T : Q)
    (entries : list CountyBaseline) :
  fst (buildDenom mode eMap T entries)
  == Qsum (map (fun b => unitWeight T b * unitElasticity mode eMap b) entries).
Proof.
  unfold buildDenom.
  rewrite (fold_left_fst _
             (fun denom b => denom + unitWeight T b * unitElasticity mode eMap b))
    by reflexivity.
  simpl fst. rewrite fold_left_plus. ring.
Qed.

Lemma solverDenom_spec (st : Page) :
  0 < totalTurnout (values (baseMap st)) ->
  solverDenom (solverMode st)
    (buildEMap (baselineByYear st) (years st) (values (baseMap st)))
    (totalTurnout (values (baseMap st))) (values (baseMap st))
  == denom st.
Proof.
  intros HT.
  assert (H : fst (buildDenom (solverMode st)
                     (buildEMap (baselineByYear st) (years st) (values (baseMap st)))
                     (totalTurnout (values (baseMap st))) (values (baseMap st)))
              == denom st).
  { rewrite buildDenom_sum. unfold denom. apply Qsum_ext. intros b Hb.
    rewrite (unitElasticity_spec st b Hb). reflexivity. }
  unfold solverDenom. pose proof (denom_lower st HT) as Hlow.
  destruct (JS.leb _ 0) eqn:E; [|exact H].
  apply JSFacts.leb_le in E. lra.
Qed.

(** The local swing stored for a county of the scope. *)
Lemma buildLocal_lookup (mode : SolverMode) (eMap wMap : gmap string Q) (delta dn : Q)
    (entries : list CountyBaseline) (b : CountyBaseline) :
  In b entries ->
  fst (buildLocal mode eMap wMap delta dn entries) !! fips b
  = Some (mkLocal ((- dCounty mode eMap delta dn b) / 2)
                  (dCounty mode eMap delta dn b / 2)).
Proof.
  intros Hb. unfold buildLocal.
  rewrite (fold_left_fst _
             (fun (local : gmap string LocalSwing) x =>
                <[fips x := mkLocal ((- dCounty mode eMap delta dn x) / 2)
                                    (dCounty mode eMap delta dn x / 2)]> local))
    by reflexivity.
  simpl fst.
  apply (fold_set_lookup fips
           (fun x => mkLocal ((- dCounty mode eMap delta dn x) / 2)
                             (dCounty mode eMap delta dn x / 2))); [|exact Hb].
  intros a a' E. unfold dCounty, unitElasticity. rewrite E. reflexivity.
Qed.

(** The state [runSolver] leaves when it applies an allocation. *)
Lemma runSolver_applied (st : Page) (target : Q) :
  solverTargetMargin st = JS.PNum target ->
  0.05 <= Qabs (solverDelta st target) ->
  values (baseMap st) <> [] ->
  0 < totalTurnout (values (baseMap st)) ->
  let entries := values (baseMap st) in
  let eMap := buildEMap (baselineByYear st) (years st) entries in
  let T := totalTurnout entries in
  let r := buildLocal (solverMode st) eMap
             (snd (buildDenom (solverMode st) eMap T entries))
             (solverDelta st target)
             (solverDenom (solverMode st) eMap T entries) entries in
  runSolver st
  = bumpTickKey
      (setSolverStatus (StatusApplied (solverMode st) (solverDelta st target) (snd r))
         (setSolverActive true (setSolverLocalSwings (fst r) st))).
Proof.
  intros Ht Hd Hne HT entries eMap T r. unfold runSolver. rewrite Ht.
  apply JSFacts.ltb_ge in Hd. unfold JS.abs. rewrite Hd.
  apply JSFacts.leb_gt in HT.
  subst r T eMap entries. unfold years.
  destruct (values (baseMap st)) as [|c l]; [contradiction|].
  rewrite HT.
  destruct (buildLocal _ _ _ _ _ _) as [local maxAbs]. reflexivity.
Qed.

(** The state [runSolver] leaves when the target is within tolerance. *)
Lemma runSolver_noop (st : Page) (target : Q) :
  solverTargetMargin st = JS.PNum target ->
  Qabs (solverDelta st target) < 0.05 ->
  runSolver st
  = setSolverStatus (StatusAlreadyWithin (solverDelta st target)) (clearSolver false st).
Proof.
  intros Ht Hd. unfold runSolver. rewrite Ht.
  apply JSFacts.ltb_lt in Hd. unfold JS.abs. rewrite Hd. reflexivity.
Qed.

(** Without turnout the current statewide margin is 0. *)
Lemma current_margin_no_turnout (st : Page) :
  totalTurnout (values (baseMap st)) <= 0 ->
  computeCurrentStatewideMarginNoLocal st == 0.
Proof.
  intros HT. unfold computeCurrentStatewideMarginNoLocal.
  apply weightedMargin_sums. rewrite <- totalTurnout_sum. exact HT.
Qed.

Lemma delta_no_turnout (st : Page) (target : Q) :
  totalTurnout (values (baseMap st)) <= 0 ->
  0.05 <= Qabs target ->
  JS.ltb (JS.abs (solverDelta st target)) 0.05 = false.
Proof.
  intros HT Hd. apply JSFacts.ltb_ge. unfold solverDelta, JS.abs.
  pose proof (current_margin_no_turnout st HT) as Hc.
  generalize dependent (computeCurrentStatewideMarginNoLocal st). intros c Hc.
  q_cases. lra.
Qed.

(** The margin change stored for a county of the scope. *)
Lemma dUnit_applied (st : Page) (target : Q) (b : CountyBaseline) :
  solverTargetMargin st = JS.PNum target ->
  0.05 <= Qabs (solverDelta st target) ->
  0 < totalTurnout (values (baseMap st)) ->
  In b (values (baseMap st)) ->
  exists dC,
    solverLocalSwings (runSolver st) !! fips b = Some (mkLocal ((- dC) / 2) (dC / 2))
    /\ dC == solverDelta st target * e st b / denom st.
Proof.
  intros Ht Hd HT Hb.
  assert (Hne : values (baseMap st) <> []) by (intros E; rewrite E in Hb; destruct Hb).
  rewrite (runSolver_applied st target Ht Hd Hne HT). simpl.
  eexists. split; [apply buildLocal_lookup; exact Hb|].
  unfold dCounty. rewrite (unitElasticity_spec st b Hb), (solverDenom_spec st HT).
  reflexivity.
Qed.

(** C1.  For a non-empty scope with positive aggregate turnout and a
    finite target at distance at least 0.05 from the current weighted
    margin, in either mode, the solver stores for every unit the local
    swing [gop = dUnit/2], [dem = -dUnit/2] with
    [dUnit_i = delta * e_i / denom], and the turnout-weighted sum
    [Σ w_i * dUnit_i] equals [delta]; in uniform mode [denom = 1] and
    [dUnit_i = delta] for every unit. *)
Theorem solver_exact (st : Page) (target : Q) :
  let units := values (baseMap st) in
  let delta := solverDelta st target in
  let st' := runSolver st in
  solverTargetMargin st = JS.PNum target ->
  units <> [] ->
  0 < totalTurnout units ->
  0.05 <= Qabs delta ->
  solverActive st' = true
  /\ (forall b, In b units ->
        exists dC,
          solverLocalSwings st' !! fips b = Some (mkLocal ((- dC) / 2) (dC / 2))
          /\ dC == delta * e st b / denom st)
  /\ (forall b, In b units -> dUnit st' b == delta * e st b / denom st)
  /\ Qsum (map (fun b => w st b * dUnit st' b) units) == delta
  /\ (solverMode st = uniform ->
      denom st == 1 /\ forall b, In b units -> dUnit st' b == delta).
Proof.
  intros units delta st' Ht Hne HT Hd.
  assert (Hden : 0.5 <= denom st) by (apply denom_lower; exact HT).
  assert (HdU : forall b, In b units -> dUnit st' b == delta * e st b / denom st).
  { intros b Hb. destruct (dUnit_applied st target b Ht Hd HT Hb) as (dC & Hl & HdC).
    unfold dUnit. subst st'. rewrite Hl. cbn [gop dem].
    apply Qeq_trans with dC; [field | exact HdC]. }
  split; [|split; [|split; [|split]]].
  - subst st'. rewrite (runSolver_applied st target Ht Hd Hne HT). reflexivity.
  - intros b Hb. apply (dUnit_applied st target b Ht Hd HT Hb).
  - exact HdU.
  - rewrite (Qsum_ext _ (fun b => (delta / denom st) * (w st b * e st b)))
      by (intros b Hb; cbv beta; rewrite (HdU b Hb); field; lra).
    rewrite Qsum_scale.
    change (Qsum (map (fun b => w st b * e st b) units)) with (denom st).
    field. lra.
  - intros Hu.
    assert (He : forall b, e st b = 1) by (intros b; unfold e; rewrite Hu; reflexivity).
    assert (H1 : denom st == 1).
    { unfold denom. rewrite <- (weights_sum st HT). apply Qsum_ext.
      intros b _. rewrite He. ring. }
    split; [exact H1|]. intros b Hb. rewrite (HdU b Hb), He, H1. field.
Qed.

(** Two counties of weights 1/4 and 3/4, current margin -5, target +3,
    elastic mode: the weighted sum of the stored changes is the
    requested 8 points. *)
Lemma solver_exact_witness :
  let st := Examples.twoUnits (JS.PNum 3) elastic in
  solverDelta st 3 == 8
  /\ Qsum (map (fun b => w st b * dUnit (runSolver st) b) (values (baseMap st)))
     == solverDelta st 3.
Proof.
  cbv zeta. split; [vm_compute; reflexivity|].
  assert (Hne : values (baseMap (Examples.twoUnits (JS.PNum 3) elastic)) <> [])
    by (vm_compute; discriminate).
  assert (HT : 0 < totalTurnout (values (baseMap (Examples.twoUnits (JS.PNum 3) elastic))))
    by (vm_compute; reflexivity).
  assert (Hd : 0.05 <= Qabs (solverDelta (Examples.twoUnits (JS.PNum 3) elastic) 3))
    by (vm_compute; discriminate).
  exact (proj1 (proj2 (proj2 (proj2
           (solver_exact (Examples.twoUnits (JS.PNum 3) elastic) 3 eq_refl Hne HT Hd))))).
Defined.

(** Solver exactness, uniform mode: three units of margin 2 and a target
    of 5 give every unit a change of exactly 3. *)
Example uniform_three_units :
  let u1 := mkCounty "17001" "17" "Adams" 100 51 49 in
  let u2 := mkCounty "17003" "17" "Alexander" 200 102 98 in
  let u3 := mkCounty "17005" "17" "Bond" 300 153 147 in
  let st := mkPage 0 0 (JS.PNum 5) uniform false ∅ StatusNone 0
              (<["17001" := u1]> (<["17003" := u2]> (<["17005" := u3]> ∅))) ∅ in
  computeCurrentStatewideMarginNoLocal st == 2
  /\ dUnit (runSolver st) u1 == 3
  /\ dUnit (runSolver st) u2 == 3
  /\ dUnit (runSolver st) u3 == 3.
Proof. cbv zeta. repeat split; vm_compute; reflexivity. Qed.

(** C5.  For every scope and every finite target whose distance from the
    current weighted margin is below 0.05, the solver returns the no-op
    result: it holds no local swing and is inactive, so that the margin
    change of every unit is 0 and the swing transform adds no local
    swing to any unit; sliders and baselines are untouched. *)
Theorem noop_within_tolerance (st : Page) (target : Q) :
  let st' := runSolver st in
  solverTargetMargin st = JS.PNum target ->
  Qabs (solverDelta st target) < 0.05 ->
  solverLocalSwings st' = ∅
  /\ solverActive st' = false
  /\ solverStatus st' = StatusAlreadyWithin (solverDelta st target)
  /\ (forall b, dUnit st' b = 0)
  /\ (forall f, localSwingFor st' f = mkLocal 0 0)
  /\ demSwing st' = demSwing st /\ gopSwing st' = gopSwing st
  /\ baseMap st' = baseMap st /\ baselineByYear st' = baselineByYear st.
Proof.
  intros st' Ht Hd. subst st'. rewrite (runSolver_noop st target Ht Hd).
  repeat split.
Qed.

(** Two counties with current margin -5 and the target -5.02. *)
Lemma noop_within_tolerance_witness :
  let st := Examples.twoUnits (JS.PNum (-5.02)) elastic in
  solverLocalSwings (runSolver st) = ∅ /\ solverActive (runSolver st) = false.
Proof.
  cbv zeta.
  assert (Hd : Qabs (solverDelta (Examples.twoUnits (JS.PNum (-5.02)) elastic) (-5.02)) < 0.05)
    by (vm_compute; reflexivity).
  pose proof (noop_within_tolerance (Examples.twoUnits (JS.PNum (-5.02)) elastic)
                (-5.02) eq_refl Hd) as H.
  split; [exact (proj1 H) | exact (proj1 (proj2 H))].
Defined.

(** C6.  The solver at an empty scope with a target within 0.05 of 0.
    The current margin of a scope without data is 0, so the test
    [|delta| < 0.05] succeeds and its exit is taken before the tests for
    an empty scope are reached: on the page as mounted, with 0 typed in
    the target field, the solver reports "already within tolerance" and
    neither of the two empty-scope statuses; on a scope whose only county
    has no turnout it moreover drops the local swings it held and clears
    the active flag. *)
Lemma empty_scope_near_zero_target :
  (let st := Examples.initialPage in
   values (baseMap st) = []
   /\ solverTargetMargin st = JS.PNum 0
   /\ solverStatus (runSolver st) = StatusAlreadyWithin (solverDelta st 0)
   /\ solverStatus (runSolver st) <> StatusNoBaseline
   /\ solverStatus (runSolver st) <> StatusZeroTotal)
  /\ (let st := Examples.zeroTurnoutActive (JS.PNum 0) in
      totalTurnout (values (baseMap st)) == 0
      /\ solverTargetMargin st = JS.PNum 0
      /\ solverStatus (runSolver st) <> StatusNoBaseline
      /\ solverStatus (runSolver st) <> StatusZeroTotal
      /\ solverLocalSwings (runSolver st) <> solverLocalSwings st
      /\ solverActive (runSolver st) <> solverActive st).
Proof.
  cbv zeta. split.
  - assert (Hd : Qabs (solverDelta Examples.initialPage 0) < 0.05)
      by (vm_compute; reflexivity).
    rewrite (runSolver_noop Examples.initialPage 0 eq_refl Hd).
    repeat split; discriminate.
  - assert (Hd : Qabs (solverDelta (Examples.zeroTurnoutActive (JS.PNum 0)) 0) < 0.05)
      by (vm_compute; reflexivity).
    rewrite (runSolver_noop (Examples.zeroTurnoutActive (JS.PNum 0)) 0 eq_refl Hd).
    split; [vm_compute; reflexivity|]. split; [reflexivity|].
    split; [discriminate|]. split; [discriminate|]. split; [|discriminate].
    simpl. intros E.
    assert (H : (∅ : gmap string LocalSwing) !! "17005"%string
                = Some (mkLocal (-1) 1)) by (rewrite E; apply lookup_insert_eq).
    rewrite lookup_empty in H. discriminate H.
Qed.

(** X23.  For every non-finite target the solver only sets the status
    asking for a numeric target.  For every scope that is empty or has
    zero aggregate turnout and every finite target [t] with
    [|t| >= 0.05], the tests for an empty scope are reached and the
    solver only sets their status ("no baseline data" for an empty
    scope, "zero total votes" otherwise).  Setting the status leaves the
    local swings, the active flag, the sliders and the baselines as they
    were. *)
Theorem solver_failures (st : Page) :
  (JS.isFinite (solverTargetMargin st) = false ->
   runSolver st = setSolverStatus StatusEnterNumeric st)
  /\ (forall target : Q,
        solverTargetMargin st = JS.PNum target ->
        0.05 <= Qabs target ->
        (values (baseMap st) = [] ->
         runSolver st = setSolverStatus StatusNoBaseline st)
        /\ (values (baseMap st) <> [] ->
            totalTurnout (values (baseMap st)) <= 0 ->
            runSolver st = setSolverStatus StatusZeroTotal st))
  /\ (forall s : SolverStatus,
        let st' := setSolverStatus s st in
        solverLocalSwings st' = solverLocalSwings st
        /\ solverActive st' = solverActive st
        /\ demSwing st' = demSwing st /\ gopSwing st' = gopSwing st
        /\ baseMap st' = baseMap st /\ baselineByYear st' = baselineByYear st
        /\ tickKey st' = tickKey st).
Proof.
  split; [|split].
  - intros H. unfold runSolver.
    destruct (solverTargetMargin st); [discriminate H | reflexivity | reflexivity].
  - intros target Ht Habs. split.
    + intros Hnil.
      assert (HT : totalTurnout (values (baseMap st)) <= 0)
        by (rewrite Hnil; unfold totalTurnout; simpl; lra).
      pose proof (delta_no_turnout st target HT Habs) as Hd.
      unfold runSolver. rewrite Ht, Hd, Hnil. reflexivity.
    + intros Hne HT.
      pose proof (delta_no_turnout st target HT Habs) as Hd.
      unfold runSolver. rewrite Ht, Hd.
      apply JSFacts.leb_le in HT.
      destruct (values (baseMap st)) as [|c l]; [contradiction|].
      rewrite HT. reflexivity.
  - intros s. simpl. repeat split.
Qed.

(** A target that does not parse, and a target of 1.5 on a scope whose
    only county has no turnout. *)
Lemma solver_failures_witness :
  runSolver (Examples.twoUnits JS.PNaN elastic)
  = setSolverStatus StatusEnterNumeric (Examples.twoUnits JS.PNaN elastic)
  /\ runSolver (Examples.zeroTurnoutActive (JS.PNum 1.5))
     = setSolverStatus StatusZeroTotal (Examples.zeroTurnoutActive (JS.PNum 1.5)).
Proof.
  split.
  - exact (proj1 (solver_failures (Examples.twoUnits JS.PNaN elastic)) eq_refl).
  - assert (Habs : 0.05 <= Qabs 1.5) by (vm_compute; discriminate).
    assert (Hne : values (baseMap (Examples.zeroTurnoutActive (JS.PNum 1.5))) <> [])
      by (vm_compute; discriminate).
    assert (HT : totalTurnout (values (baseMap (Examples.zeroTurnoutActive (JS.PNum 1.5)))) <= 0)
      by (vm_compute; discriminate).
    exact (proj2 (proj1 (proj2 (solver_failures (Examples.zeroTurnoutActive (JS.PNum 1.5))))
                    1.5 eq_refl Habs) Hne HT).
Defined.

End Solver.


(** ** Laws of the swing library *)

Module SwingLaws.

Import Swing Spec.

Lemma clamp_compat v v' lo hi : v == v' -> clamp v lo hi == clamp v' lo hi.
Proof. intros H. unfold clamp. q_cases. lra. Qed.

Lemma clamp_mono v v' lo hi : v <= v' -> clamp v lo hi <= clamp v' lo hi.
Proof. intros H. unfold clamp. q_cases. lra. Qed.

Lemma renormalize_compat (s s' : Shares) :
  dShare s == dShare s' -> gShare s == gShare s' ->
  dShare (renormalize s) == dShare (renormalize s')
  /\ gShare (renormalize s) == gShare (renormalize s').
Proof.
  intros Hd Hg. unfold renormalize.
  destruct (JS.gtb (dShare s + gShare s) 1) eqn:E;
    destruct (JS.gtb (dShare s' + gShare s') 1) eqn:E'; simpl;
    try apply JSFacts.gtb_gt in E; try apply JSFacts.gtb_le in E;
    try apply JSFacts.gtb_gt in E'; try apply JSFacts.gtb_le in E';
    try lra.
  rewrite Hd, Hg. split; reflexivity.
Qed.

(** The spread after renormalisation, by cases. *)
Lemma spread_renormalize d g :
  (d + g <= 1 /\ spread (renormalize (mkShares d g)) == g - d)
  \/ (1 < d + g /\ spread (renormalize (mkShares d g)) == (g - d) / (d + g)).
Proof.
  unfold spread, renormalize. simpl.
  destruct (JS.gtb (d + g) 1) eqn:E; simpl.
  - apply JSFacts.gtb_gt in E. right. split; [exact E | field; lra].
  - apply JSFacts.gtb_le in E. left. split; [exact E | reflexivity].
Qed.

Lemma spread_swap d g :
  spread (renormalize (mkShares g d)) == - spread (renormalize (mkShares d g)).
Proof.
  destruct (spread_renormalize d g) as [[H1 E1] | [H1 E1]];
    destruct (spread_renormalize g d) as [[H2 E2] | [H2 E2]];
    rewrite E1, E2; try lra.
  field. lra.
Qed.

Lemma quotient_mono d g1 g2 :
  0 <= d -> 0 <= g1 <= g2 -> 1 < d + g1 ->
  (g1 - d) / (d + g1) <= (g2 - d) / (d + g2).
Proof.
  intros Hd Hg H1.
  apply Qle_shift_div_l; [lra|].
  assert (E : (g1 - d) / (d + g1) * (d + g2) == ((g1 - d) * (d + g2)) / (d + g1))
    by (field; lra).
  rewrite E. apply Qle_shift_div_r; [lra|]. nra.
Qed.

Lemma quotient_above d g :
  0 <= d -> 0 <= g -> 1 < d + g -> 1 - 2 * d <= (g - d) / (d + g).
Proof.
  intros Hd Hg H1. apply Qle_shift_div_l; [lra|]. nra.
Qed.

Lemma spread_mono d g1 g2 :
  0 <= d -> 0 <= g1 <= g2 ->
  spread (renormalize (mkShares d g1)) <= spread (renormalize (mkShares d g2)).
Proof.
  intros Hd Hg.
  destruct (spread_renormalize d g1) as [[H1 E1] | [H1 E1]];
    destruct (spread_renormalize d g2) as [[H2 E2] | [H2 E2]];
    rewrite E1, E2; try lra.
  - assert (Hq : 1 - 2 * d <= (g2 - d) / (d + g2)) by (apply quotient_above; lra).
    lra.
  - apply quotient_mono; lra.
Qed.

(** The margins of [computeProjectedMargin] in terms of the baseline
    shares [votes / max(1, totalVotes)]. *)
Lemma projected_margins dv gv tv dpp gpp ld lg :
  let d0 := dv / Qmax 1 tv in
  let g0 := gv / Qmax 1 tv in
  let m := computeProjectedMargin dv gv tv dpp gpp ld lg in
  baseMargin m == (g0 - d0) * 100
  /\ newMargin m
     == spread (renormalize (mkShares (clamp (d0 + (dpp + ld) / 100) 0 1)
                                      (clamp (g0 + (gpp + lg) / 100) 0 1))) * 100.
Proof.
  intros d0 g0 m.
  assert (HT : JS.max 1 (JS.orElse tv 0) == Qmax 1 tv).
  { pose proof (JSFacts.orElse_zero tv) as Ho.
    generalize dependent (JS.orElse tv 0). intros o Ho. q_cases. lra. }
  assert (Hd : JS.orElse dv 0 / JS.max 1 (JS.orElse tv 0) == d0)
    by (subst d0; rewrite HT, (JSFacts.orElse_zero dv); reflexivity).
  assert (Hg : JS.orElse gv 0 / JS.max 1 (JS.orElse tv 0) == g0)
    by (subst g0; rewrite HT, (JSFacts.orElse_zero gv); reflexivity).
  subst m. unfold computeProjectedMargin, computeSharesAfterSwing, clampedShares.
  cbn [baseMargin newMargin].
  split; [rewrite Hd, Hg; reflexivity|].
  match goal with
  | |- (gShare (renormalize ?s) - dShare (renormalize ?s)) * 100 == spread (renormalize ?s') * 100 =>
      destruct (renormalize_compat s s') as [E1 E2]
  end.
  - simpl. apply clamp_compat. rewrite Hd. reflexivity.
  - simpl. apply clamp_compat. rewrite Hg. reflexivity.
  - unfold spread. rewrite E1, E2. reflexivity.
Qed.

(** X1.  [clamp(v, lo, hi)] is never below [lo]; when [lo <= hi] it lies
    in [[lo, hi]], is the identity on that interval and is idempotent;
    when the bounds are crossed ([hi < lo]) it returns [lo]. *)
Theorem clamp_laws (v lo hi : Q) :
  lo <= clamp v lo hi
  /\ (lo <= hi ->
      clamp v lo hi <= hi
      /\ (lo <= v <= hi -> clamp v lo hi == v)
      /\ clamp (clamp v lo hi) lo hi == clamp v lo hi)
  /\ (hi < lo -> clamp v lo hi == lo).
Proof.
  unfold clamp. repeat split; intros; q_cases; lra.
Qed.

Lemma clamp_laws_witness :
  clamp 250 30 255 == 250 /\ clamp 7 5 1 == 5.
Proof.
  split.
  - apply (proj1 (proj2 (clamp_laws 250 30 255))); vm_compute; discriminate.
  - apply (proj2 (proj2 (clamp_laws 7 5 1))). vm_compute. reflexivity.
Defined.

(** X2.  The colour bucket depends on the magnitude of the margin only
    and never decreases when the magnitude grows. *)
Theorem bucket_monotone (a b : Q) :
  iowaMarginBinIndex (- a) = iowaMarginBinIndex a
  /\ (Qabs a <= Qabs b -> (iowaMarginBinIndex a <= iowaMarginBinIndex b)%nat).
Proof.
  split.
  - unfold iowaMarginBinIndex, JS.abs.
    assert (E : Qabs (- a) == Qabs a) by apply Qabs_opp.
    assert (L : forall c, JS.ltb (Qabs (- a)) c = JS.ltb (Qabs a) c).
    { intros c. unfold JS.ltb. rewrite E. reflexivity. }
    rewrite !L. reflexivity.
  - intros H. unfold iowaMarginBinIndex, JS.abs.
    repeat match goal with
    | |- context [JS.ltb ?x ?y] =>
        let E := fresh "E" in
        destruct (JS.ltb x y) eqn:E;
        [apply JSFacts.ltb_lt in E | apply JSFacts.ltb_ge in E]
    end; first [lia | lra].
Qed.

Lemma bucket_monotone_witness :
  (iowaMarginBinIndex 4 <= iowaMarginBinIndex (-12))%nat.
Proof.
  apply (proj2 (bucket_monotone 4 (-12))). vm_compute. discriminate.
Defined.

Lemma extrusion_bounds (m : Q) : 1000 <= extrusionFromMarginIOWA m <= 19000.
Proof.
  assert (F : extrusionFromMarginIOWA m == 1000 + 450 * Qmin 40 (Qabs m))
    by (unfold extrusionFromMarginIOWA, JS.min, JS.abs; field).
  rewrite F. q_cases. lra.
Qed.

(** X3.  The margin extrusion lies between 1000 and 19000, depends on the
    magnitude of the margin only, and never decreases when the magnitude
    grows. *)
Theorem extrusion_range (a b : Q) :
  1000 <= extrusionFromMarginIOWA a <= 19000
  /\ extrusionFromMarginIOWA (- a) == extrusionFromMarginIOWA a
  /\ (Qabs a <= Qabs b -> extrusionFromMarginIOWA a <= extrusionFromMarginIOWA b).
Proof.
  assert (F : forall m, extrusionFromMarginIOWA m == 1000 + 450 * Qmin 40 (Qabs m))
    by (intros m; unfold extrusionFromMarginIOWA, JS.min, JS.abs; field).
  split; [|split].
  - rewrite F. q_cases. lra.
  - rewrite !F. assert (E : Qabs (- a) == Qabs a) by apply Qabs_opp.
    generalize dependent (Qabs (- a)). intros x E. q_cases. lra.
  - intros H. rewrite !F. q_cases. lra.
Qed.

Lemma extrusion_range_witness :
  extrusionFromMarginIOWA 4 <= extrusionFromMarginIOWA (-12).
Proof.
  apply (proj2 (proj2 (extrusion_range 4 (-12)))). vm_compute. discriminate.
Defined.

(** The votes after the turnout factor, as [turnoutHeightFromVotesIOWA]
    scales them. *)
Lemma scaledVotes_facts tv tv' tf :
  let sc := fun t => JS.max 0 (JS.orElse t 0) * clamp tf 0.5 1.5 in
  0 <= sc tv /\ (tv <= 0 -> sc tv == 0) /\ (tv <= tv' -> sc tv <= sc tv').
Proof.
  intros sc. subst sc. cbv beta.
  pose proof (SwingFacts.clamp_bounds tf 0.5 1.5 ltac:(lra)) as Hc.
  pose proof (JSFacts.orElse_zero tv) as Ho.
  pose proof (JSFacts.orElse_zero tv') as Ho'.
  generalize dependent (clamp tf 0.5 1.5). intros c Hc.
  generalize dependent (JS.orElse tv 0). intros o Ho.
  generalize dependent (JS.orElse tv' 0). intros o' Ho'.
  q_cases. repeat split; intros; nra.
Qed.

Lemma turnoutHeight_bounds (tv tf p95 : Q) :
  1000 <= turnoutHeightFromVotesIOWA tv tf p95 <= 22600.
Proof.
  unfold turnoutHeightFromVotesIOWA.
  destruct (scaledVotes_facts tv tv tf) as (Hnn & _). cbv beta in Hnn.
  generalize dependent (JS.max 0 (JS.orElse tv 0) * clamp tf 0.5 1.5). intros sc Hnn.
  assert (Hq : 0 <= (if JS.gtb p95 0 then sc / p95 else 0)).
  { destruct (JS.gtb p95 0) eqn:E; [|lra].
    apply JSFacts.gtb_gt in E. apply Qle_shift_div_l; lra. }
  generalize dependent (if JS.gtb p95 0 then sc / p95 else 0). intros q Hq.
  q_cases. lra.
Qed.

(** X4.  The turnout height lies between 1000 and 22600 (the cap at 1.2
    times the 95th percentile); it is the base height 1000 when the
    percentile is not positive or the county has no votes; and it never
    decreases when the votes grow. *)
Theorem turnout_height_range (tv tv' tf p95 : Q) :
  let h := turnoutHeightFromVotesIOWA tv tf p95 in
  1000 <= h <= 22600
  /\ (p95 <= 0 -> h == 1000)
  /\ (tv <= 0 -> h == 1000)
  /\ (tv <= tv' -> h <= turnoutHeightFromVotesIOWA tv' tf p95).
Proof.
  intros h. subst h. unfold turnoutHeightFromVotesIOWA.
  destruct (scaledVotes_facts tv tv' tf) as (Hnn & Hz & Hm).
  destruct (scaledVotes_facts tv' tv tf) as (Hnn' & _ & _).
  cbv beta in Hnn, Hz, Hm, Hnn'.
  generalize dependent (JS.max 0 (JS.orElse tv 0) * clamp tf 0.5 1.5). intros sc Hnn Hz Hm.
  generalize dependent (JS.max 0 (JS.orElse tv' 0) * clamp tf 0.5 1.5). intros sc' Hm Hnn'.
  destruct (JS.gtb p95 0) eqn:E.
  - apply JSFacts.gtb_gt in E.
    assert (Hq : 0 <= sc / p95) by (apply Qle_shift_div_l; lra).
    assert (Hq0 : sc == 0 -> sc / p95 == 0) by (intros Z; rewrite Z; field; lra).
    assert (Hqm : sc <= sc' -> sc / p95 <= sc' / p95).
    { intros L. apply Qle_shift_div_l; [lra|].
      assert (X : sc / p95 * p95 == sc) by (field; lra). rewrite X. exact L. }
    generalize dependent (sc / p95). intros q Hq Hq0 Hqm.
    generalize dependent (sc' / p95). intros q' Hqm.
    q_cases. repeat split; intros;
      try (assert (q == 0) by (apply Hq0, Hz; assumption));
      try (assert (q <= q') by (apply Hqm, Hm; assumption)); lra.
  - apply JSFacts.gtb_le in E. q_cases. repeat split; intros; lra.
Qed.

Lemma turnout_height_range_witness :
  turnoutHeightFromVotesIOWA 500 1 0 == 1000
  /\ turnoutHeightFromVotesIOWA 500 1 1000
     <= turnoutHeightFromVotesIOWA 900 1 1000.
Proof.
  split.
  - apply (proj1 (proj2 (turnout_height_range 500 500 1 0))). vm_compute. discriminate.
  - apply (proj2 (proj2 (proj2 (turnout_height_range 500 900 1 1000)))).
    vm_compute. discriminate.
Defined.

(** X5.  Whatever the votes and the swings, the projected margin of
    [computeProjectedMargin] lies between -100 and +100. *)
Theorem projected_margin_range (dv gv tv dpp gpp ld lg : Q) :
  -100 <= newMargin (computeProjectedMargin dv gv tv dpp gpp ld lg) <= 100.
Proof.
  unfold computeProjectedMargin. cbn [newMargin].
  match goal with
  | |- context [computeSharesAfterSwing ?a ?b ?c ?e] =>
      pose proof (SwingFacts.computeSharesAfterSwing_ok a b c e) as H;
      cbv zeta in H; unfold sharesOK in H;
      generalize dependent (computeSharesAfterSwing a b c e); intros sh H
  end.
  lra.
Qed.

(** X6.  When the swung shares need neither clamp nor renormalisation
    (both stay non-negative and sum to at most 1), the projected margin
    is the baseline margin plus the GOP swing minus the Democratic swing,
    global and local together: a linked swing of [+S/2] and [-S/2] moves
    the margin by exactly [S]. *)
Theorem linear_regime (dv gv tv dpp gpp ld lg : Q) :
  let d1 := dv / Qmax 1 tv + (dpp + ld) / 100 in
  let g1 := gv / Qmax 1 tv + (gpp + lg) / 100 in
  let m := computeProjectedMargin dv gv tv dpp gpp ld lg in
  0 <= d1 -> 0 <= g1 -> d1 + g1 <= 1 ->
  newMargin m == baseMargin m + (gpp + lg) - (dpp + ld).
Proof.
  intros d1 g1 m Hd Hg Hs.
  destruct (projected_margins dv gv tv dpp gpp ld lg) as [Hb Hn].
  fold m in Hb, Hn. fold d1 g1 in Hn. rewrite Hb, Hn.
  assert (Cd : clamp d1 0 1 == d1) by (apply SwingFacts.clamp_id; lra).
  assert (Cg : clamp g1 0 1 == g1) by (apply SwingFacts.clamp_id; lra).
  destruct (spread_renormalize (clamp d1 0 1) (clamp g1 0 1)) as [[_ E] | [H1 _]];
    [|lra].
  rewrite E, Cd, Cg. subst d1 g1. field. q_cases. lra.
Qed.

(** A 55/45 county under the linked swing [gop -5], [dem +5]: the margin
    moves from +10 by -10. *)
Lemma linear_regime_witness :
  let m := computeProjectedMargin 450 550 1000 5 (-5) 0 0 in
  newMargin m == baseMargin m + (-5 + 0) - (5 + 0).
Proof.
  cbv zeta.
  apply (linear_regime 450 550 1000 5 (-5) 0 0); vm_compute; discriminate.
Defined.

(** X7.  The transform treats the two parties alike: exchanging their
    votes and their swings negates both margins. *)
Theorem party_symmetry (dv gv tv dpp gpp ld lg : Q) :
  let m := computeProjectedMargin dv gv tv dpp gpp ld lg in
  let m' := computeProjectedMargin gv dv tv gpp dpp lg ld in
  baseMargin m' == - baseMargin m /\ newMargin m' == - newMargin m.
Proof.
  intros m m'.
  destruct (projected_margins dv gv tv dpp gpp ld lg) as [Hb Hn].
  destruct (projected_margins gv dv tv gpp dpp lg ld) as [Hb' Hn'].
  fold m in Hb, Hn. fold m' in Hb', Hn'.
  split.
  - rewrite Hb, Hb'. ring.
  - rewrite Hn, Hn', spread_swap. ring.
Qed.

(** X8.  A larger GOP swing never lowers the projected margin and a
    larger Democratic swing never raises it, clamps and renormalisation
    included. *)
Theorem margin_monotone (dv gv tv dpp gpp ld lg dpp' gpp' : Q) :
  (gpp <= gpp' ->
   newMargin (computeProjectedMargin dv gv tv dpp gpp ld lg)
   <= newMargin (computeProjectedMargin dv gv tv dpp gpp' ld lg))
  /\ (dpp <= dpp' ->
      newMargin (computeProjectedMargin dv gv tv dpp' gpp ld lg)
      <= newMargin (computeProjectedMargin dv gv tv dpp gpp ld lg)).
Proof.
  assert (Up : forall d g g' : Q,
             g <= g' ->
             spread (renormalize (mkShares (clamp d 0 1) (clamp g 0 1)))
             <= spread (renormalize (mkShares (clamp d 0 1) (clamp g' 0 1)))).
  { intros d g g' H.
    pose proof (SwingFacts.clamp_bounds d 0 1 ltac:(lra)).
    pose proof (SwingFacts.clamp_bounds g 0 1 ltac:(lra)).
    pose proof (clamp_mono g g' 0 1 H).
    apply spread_mono; lra. }
  split; intros H.
  - destruct (projected_margins dv gv tv dpp gpp ld lg) as [_ Hn].
    destruct (projected_margins dv gv tv dpp gpp' ld lg) as [_ Hn'].
    rewrite Hn, Hn'.
    pose proof (Up (dv / Qmax 1 tv + (dpp + ld) / 100)
                   (gv / Qmax 1 tv + (gpp + lg) / 100)
                   (gv / Qmax 1 tv + (gpp' + lg) / 100)) as U.
    assert (L' : gv / Qmax 1 tv + (gpp + lg) / 100 <= gv / Qmax 1 tv + (gpp' + lg) / 100).
    { apply Qplus_le_r. apply Qmult_le_compat_r; [lra | vm_compute; discriminate]. }
    specialize (U L'). lra.
  - destruct (projected_margins dv gv tv dpp gpp ld lg) as [_ Hn].
    destruct (projected_margins dv gv tv dpp' gpp ld lg) as [_ Hn'].
    rewrite Hn, Hn'.
    pose proof (Up (gv / Qmax 1 tv + (gpp + lg) / 100)
                   (dv / Qmax 1 tv + (dpp + ld) / 100)
                   (dv / Qmax 1 tv + (dpp' + ld) / 100)) as U.
    assert (L' : dv / Qmax 1 tv + (dpp + ld) / 100 <= dv / Qmax 1 tv + (dpp' + ld) / 100).
    { apply Qplus_le_r. apply Qmult_le_compat_r; [lra | vm_compute; discriminate]. }
    specialize (U L').
    rewrite (spread_swap (clamp (dv / Qmax 1 tv + (dpp + ld) / 100) 0 1)) in U.
    rewrite (spread_swap (clamp (dv / Qmax 1 tv + (dpp' + ld) / 100) 0 1)) in U.
    lra.
Qed.

(** A 60/45 county of 100 votes (shares that sum to 1.05): raising the
    GOP swing from 0 to 10 points raises the renormalised margin. *)
Lemma margin_monotone_witness :
  newMargin (computeProjectedMargin 45 60 100 0 0 0 0)
  <= newMargin (computeProjectedMargin 45 60 100 0 10 0 0).
Proof.
  apply (proj1 (margin_monotone 45 60 100 0 0 0 0 0 10)). vm_compute. discriminate.
Defined.

End SwingLaws.

(** ** Laws of the page: transform, aggregators, flips *)

Module PageLaws.

Import RustBelt Spec SumFacts RustBeltFacts.

(** Without an active solver, or without a county code, no local swing
    is added. *)
Lemma localSwingFor_inactive (st : Page) (f : option string) :
  solverActive st = false -> localSwingFor st f = mkLocal 0 0.
Proof. intros H. unfold localSwingFor. rewrite H. reflexivity. Qed.

Lemma localSwingFor_None (st : Page) : localSwingFor st None = mkLocal 0 0.
Proof. unfold localSwingFor. destruct (solverActive st); reflexivity. Qed.

(** The margins of [projectedSwing] on a reporting county, through the
    spread of the renormalised clamped shares. *)
Lemma projectedSwing_margins (st : Page) (b : CountyBaseline) (f : option string) :
  0 < totalVotes2024 b ->
  let d0 := votesDem2024 b / Qmax 1 (totalVotes2024 b) in
  let g0 := votesGop2024 b / Qmax 1 (totalVotes2024 b) in
  let loc := localSwingFor st f in
  let p := projectedSwing st (Some b) f in
  baseMargin p = (g0 - d0) * 100
  /\ newMargin p
     = spread (Swing.renormalize
                 (Swing.mkShares
                    (Swing.clamp (d0 + demSwing st / 100 + dem loc / 100) 0 1)
                    (Swing.clamp (g0 + gopSwing st / 100 + gop loc / 100) 0 1))) * 100
  /\ swing p = newMargin p - baseMargin p.
Proof.
  intros Hpos d0 g0 loc p. subst p.
  rewrite (projectedSwing_reporting st b f Hpos). simpl. repeat split.
Qed.

(** No clamp and no renormalisation: the projected margin of the page is
    linear in the swings. *)
Lemma projectedSwing_linear (st : Page) (b : CountyBaseline) (f : option string) :
  0 < totalVotes2024 b ->
  let loc := localSwingFor st f in
  let d1 := votesDem2024 b / Qmax 1 (totalVotes2024 b) + demSwing st / 100 + dem loc / 100 in
  let g1 := votesGop2024 b / Qmax 1 (totalVotes2024 b) + gopSwing st / 100 + gop loc / 100 in
  0 <= d1 -> 0 <= g1 -> d1 + g1 <= 1 ->
  newMargin (projectedSwing st (Some b) f) == (g1 - d1) * 100.
Proof.
  intros Hpos loc d1 g1 Hd Hg Hs.
  destruct (projectedSwing_margins st b f Hpos) as (_ & Hn & _).
  cbv zeta in Hn. rewrite Hn. fold loc. fold d1 g1.
  assert (Cd : Swing.clamp d1 0 1 == d1) by (apply SwingFacts.clamp_id; lra).
  assert (Cg : Swing.clamp g1 0 1 == g1) by (apply SwingFacts.clamp_id; lra).
  destruct (SwingLaws.spread_renormalize (Swing.clamp d1 0 1) (Swing.clamp g1 0 1))
    as [[_ E] | [H1 _]]; [|lra].
  rewrite E, Cd, Cg. reflexivity.
Qed.

(** A well-formed reporting record has shares in range. *)
Lemma wellformed_shares (b : CountyBaseline) :
  0 < totalVotes2024 b -> 0 <= votesGop2024 b -> 0 <= votesDem2024 b ->
  votesGop2024 b + votesDem2024 b <= totalVotes2024 b ->
  let d0 := votesDem2024 b / Qmax 1 (totalVotes2024 b) in
  let g0 := votesGop2024 b / Qmax 1 (totalVotes2024 b) in
  0 <= d0 /\ 0 <= g0 /\ d0 + g0 <= 1.
Proof.
  intros Ht Hg Hd Hs d0 g0. subst d0 g0.
  assert (HT : 1 <= Qmax 1 (totalVotes2024 b) /\ totalVotes2024 b <= Qmax 1 (totalVotes2024 b))
    by (q_cases; lra).
  generalize dependent (Qmax 1 (totalVotes2024 b)). intros T [HT1 HT2].
  assert (Hi : 0 < / T) by (apply Qinv_lt_0_compat; lra).
  assert (Hone : T * / T == 1) by (field; lra).
  unfold Qdiv. repeat split; nra.
Qed.

(** Two margin functions that agree on the reporting counties give the
    same aggregate. *)
Lemma weightedMargin_ext (m m' : CountyBaseline -> Q) (l : list CountyBaseline) :
  (forall b, In b l -> 0 < totalVotes2024 b -> m b == m' b) ->
  weightedMargin m l == weightedMargin m' l.
Proof.
  intros H.
  destruct (weightedMargin_sums m l) as [P Z].
  destruct (weightedMargin_sums m' l) as [P' Z'].
  destruct (Qlt_le_dec 0 (Qsum (map turnoutOf l))) as [HT|HT].
  - rewrite (P HT), (P' HT).
    rewrite (Qsum_ext (fun b => m b * turnoutOf b) (fun b => m' b * turnoutOf b));
      [reflexivity|].
    intros b Hb. destruct (Qlt_le_dec 0 (totalVotes2024 b)) as [Hp|Hn].
    + rewrite (H b Hb Hp). reflexivity.
    + rewrite (turnoutOf_nonpos b Hn). ring.
  - rewrite (Z HT), (Z' HT). reflexivity.
Qed.

(** X9.  On every reporting county the transform inlined in the page
    agrees with the shared library: [projectedSwing] gives the margins of
    [computeProjectedMargin] called with the sliders as global swings and
    the solver's entry as local swings. *)
Theorem page_matches_library (st : Page) (b : CountyBaseline) (f : option string) :
  let loc := localSwingFor st f in
  let m := Swing.computeProjectedMargin (votesDem2024 b) (votesGop2024 b) (totalVotes2024 b)
             (demSwing st) (gopSwing st) (dem loc) (gop loc) in
  let p := projectedSwing st (Some b) f in
  0 < totalVotes2024 b ->
  baseMargin p == Swing.baseMargin m
  /\ newMargin p == Swing.newMargin m
  /\ swing p == Swing.newMargin m - Swing.baseMargin m.
Proof.
  intros loc m p Hpos.
  destruct (projectedSwing_margins st b f Hpos) as (Hb & Hn & Hs).
  destruct (SwingLaws.projected_margins (votesDem2024 b) (votesGop2024 b) (totalVotes2024 b)
              (demSwing st) (gopSwing st) (dem loc) (gop loc)) as [Lb Ln].
  cbv zeta in Hb, Hn, Hs, Lb, Ln. fold loc in Hn. fold p in Hb, Hn, Hs. fold m in Lb, Ln.
  assert (En : newMargin p == Swing.newMargin m).
  { rewrite Hn, Ln. unfold spread.
    match goal with
    | |- (Swing.gShare (Swing.renormalize ?s) - _) * 100
         == (Swing.gShare (Swing.renormalize ?s') - _) * 100 =>
        destruct (SwingLaws.renormalize_compat s s') as [E1 E2]
    end.
    - simpl. apply SwingLaws.clamp_compat. field. q_cases. lra.
    - simpl. apply SwingLaws.clamp_compat. field. q_cases. lra.
    - rewrite E1, E2. reflexivity. }
  assert (Eb : baseMargin p == Swing.baseMargin m) by (rewrite Hb, Lb; reflexivity).
  split; [exact Eb|]. split; [exact En|]. rewrite Hs, En, Eb. reflexivity.
Qed.

Lemma page_matches_library_witness :
  let st := Examples.twoUnits JS.PNaN uniform in
  newMargin (projectedSwing st (Some Examples.countyA) (Some "17001"%string))
  == Swing.newMargin (Swing.computeProjectedMargin 45 55 100 0 0 0 0).
Proof.
  cbv zeta.
  assert (Hpos : 0 < totalVotes2024 Examples.countyA) by (vm_compute; reflexivity).
  exact (proj1 (proj2 (page_matches_library (Examples.twoUnits JS.PNaN uniform)
                         Examples.countyA (Some "17001"%string) Hpos))).
Defined.

(** X10.  "Baseline is visible when swings are zero and solver is
    cleared": when no swing is active the projected margin of a state is
    its baseline margin, and with both sliders at zero this is what
    [clearSolver] leaves. *)
Theorem no_swing_shows_baseline (st : Page) (sf : string) :
  (anySwing st = false ->
   computeStateProjectedMargin st sf == computeStateBaselineMargin st sf)
  /\ (demSwing st == 0 -> gopSwing st == 0 ->
      forall refresh : bool,
        computeStateProjectedMargin (clearSolver refresh st) sf
        == computeStateBaselineMargin st sf).
Proof.
  assert (Main : forall st', anySwing st' = false ->
            computeStateProjectedMargin st' sf == computeStateBaselineMargin st' sf).
  { intros st' H. unfold computeStateProjectedMargin, computeStateBaselineMargin.
    apply weightedMargin_ext. intros b _ Hpos. cbv beta zeta. rewrite H.
    destruct (projectedSwing_margins st' b (Some (fips b)) Hpos) as (Hb & _).
    cbv zeta in Hb. rewrite Hb. reflexivity. }
  split; [apply Main|].
  intros Hd Hg refresh.
  assert (HA : anySwing (clearSolver refresh st) = false).
  { unfold anySwing.
    assert (Ed : JS.nonzero (demSwing (clearSolver refresh st)) = false)
      by (apply JSFacts.nonzero_false; destruct refresh; exact Hd).
    assert (Eg : JS.nonzero (gopSwing (clearSolver refresh st)) = false)
      by (apply JSFacts.nonzero_false; destruct refresh; exact Hg).
    rewrite Ed, Eg. destruct refresh; reflexivity. }
  rewrite (Main _ HA). destruct refresh; reflexivity.
Qed.

Lemma no_swing_shows_baseline_witness :
  let st := Examples.zeroTurnoutActive (JS.PNum 0) in
  computeStateProjectedMargin (clearSolver true st) "17"
  == computeStateBaselineMargin st "17".
Proof.
  cbv zeta.
  assert (Hd : demSwing (Examples.zeroTurnoutActive (JS.PNum 0)) == 0) by reflexivity.
  assert (Hg : gopSwing (Examples.zeroTurnoutActive (JS.PNum 0)) == 0) by reflexivity.
  exact (proj2 (no_swing_shows_baseline (Examples.zeroTurnoutActive (JS.PNum 0)) "17")
           Hd Hg true).
Defined.

(** The loop of [countFlips] from any pair of counters. *)
Lemma countFlips_fold (st : Page) (l : list CountyBaseline) (acc : nat * nat) :
  let r :=
    fold_left
      (fun '(flips, total) b =>
         let p := projectedSwing st (Some b) (Some (fips b)) in
         let flips :=
           if JS.neqb (JS.sign (baseMargin p)) (JS.sign (newMargin p))
              && JS.gtb (JS.abs (baseMargin p - newMargin p)) 0.1
           then S flips else flips in
         (flips, S total))
      l acc in
  snd r = (snd acc + length l)%nat
  /\ (fst acc <= fst r <= fst acc + length l)%nat
  /\ ((forall b, In b l ->
         newMargin (projectedSwing st (Some b) (Some (fips b)))
         == baseMargin (projectedSwing st (Some b) (Some (fips b)))) ->
      fst r = fst acc).
Proof.
  revert acc. induction l as [|b l IH]; intros [flips total];
    cbn [fold_left length]; cbv beta iota zeta.
  - cbn [fst snd]. repeat split; lia.
  - match goal with
    | |- context [fold_left _ l (?f, S total)] =>
        destruct (IH (f, S total)) as (I1 & I2 & I3)
    end.
    cbv zeta in I1, I2, I3. cbn [fst snd] in *.
    split; [rewrite I1; lia|]. split.
    + destruct (_ && _); lia.
    + intros H. rewrite I3 by (intros x Hx; apply H; right; exact Hx).
      assert (E : JS.gtb (JS.abs (baseMargin (projectedSwing st (Some b) (Some (fips b)))
                                  - newMargin (projectedSwing st (Some b) (Some (fips b)))))
                         0.1 = false).
      { apply JSFacts.gtb_le.
        assert (A : forall x y : Q, y == x -> JS.abs (x - y) <= 0.1)
          by (intros x y Hxy; q_cases; lra).
        apply A, H. left. reflexivity. }
      rewrite E, andb_false_r. reflexivity.
Qed.

(** X11.  [countFlips] counts every county of the baseline once, never
    reports more flips than counties, and reports none when no swing is
    active and every reporting county has non-negative party votes that
    do not exceed its total. *)
Theorem countFlips_counts (st : Page) :
  snd (countFlips st) = length (values (baseMap st))
  /\ (fst (countFlips st) <= snd (countFlips st))%nat
  /\ (anySwing st = false ->
      (forall b, In b (values (baseMap st)) -> 0 < totalVotes2024 b ->
                 0 <= votesGop2024 b /\ 0 <= votesDem2024 b
                 /\ votesGop2024 b + votesDem2024 b <= totalVotes2024 b) ->
      fst (countFlips st) = 0%nat).
Proof.
  unfold countFlips.
  destruct (countFlips_fold st (values (baseMap st)) (0%nat, 0%nat)) as (H1 & H2 & H3).
  cbv zeta in H1, H2, H3. cbn [fst snd] in *.
  split; [exact H1|]. split; [rewrite H1; lia|].
  intros HA Hwf. apply H3. intros b Hb.
  destruct (Qlt_le_dec 0 (totalVotes2024 b)) as [Hpos|Hle].
  - destruct (Hwf b Hb Hpos) as (Hg & Hd & Hs).
    destruct (wellformed_shares b Hpos Hg Hd Hs) as (W1 & W2 & W3).
    unfold anySwing in HA. apply orb_false_iff in HA as [HA Hact].
    apply orb_false_iff in HA as [Zd Zg].
    apply JSFacts.nonzero_false in Zd. apply JSFacts.nonzero_false in Zg.
    pose proof (projectedSwing_linear st b (Some (fips b)) Hpos) as L.
    rewrite (localSwingFor_inactive st _ Hact) in L. cbv zeta in L. simpl dem in L.
    simpl gop in L.
    assert (E0 : forall x s : Q, s == 0 -> x + s / 100 + 0 / 100 == x)
      by (intros x s Hs0; rewrite Hs0; field).
    rewrite L by (rewrite ?(E0 _ _ Zd), ?(E0 _ _ Zg); lra).
    destruct (projectedSwing_margins st b (Some (fips b)) Hpos) as (Hbm & _).
    cbv zeta in Hbm. rewrite Hbm, (E0 _ _ Zd), (E0 _ _ Zg). reflexivity.
  - rewrite (projectedSwing_not_reporting st b _ Hle). reflexivity.
Qed.

Lemma countFlips_counts_witness :
  fst (countFlips (Examples.twoUnits JS.PNaN uniform)) = 0%nat.
Proof.
  assert (E : values (baseMap (Examples.twoUnits JS.PNaN uniform))
              = [Examples.countyB; Examples.countyA]) by (vm_compute; reflexivity).
  apply (proj2 (proj2 (countFlips_counts (Examples.twoUnits JS.PNaN uniform)))).
  - reflexivity.
  - rewrite E. intros b [<- | [<- | []]] _; repeat split; vm_compute; discriminate.
Defined.

(** With a swing the counter does count: a 51/49 county under a 3-point
    Democratic swing changes sign. *)
Example countFlips_one_flip :
  let st := mkPage 3 0 JS.PNaN uniform false ∅ StatusNone 0
              (<["17001" := mkCounty "17001" "17" "Adams" 100 51 49]> ∅) ∅ in
  countFlips st = (1%nat, 1%nat).
Proof. vm_compute. reflexivity. Qed.

End PageLaws.

(** ** Laws of the solver *)

Module SolverLaws.

Import RustBelt Spec SumFacts RustBeltFacts Solver.

Lemma fold_left_pointwise {A B : Type} (F G : A -> B -> A) (l : list B) (a : A) :
  (forall a x, F a x = G a x) -> fold_left F l a = fold_left G l a.
Proof.
  intros H. revert a. induction l as [|x l IH]; intros a; simpl; [reflexivity|].
  rewrite H. apply IH.
Qed.

Lemma weightedMargin_pointwise (m m' : CountyBaseline -> Q) (l : list CountyBaseline) :
  (forall b, m b = m' b) -> weightedMargin m l = weightedMargin m' l.
Proof.
  intros H. unfold weightedMargin. destruct l as [|b0 l]; [reflexivity|].
  rewrite (fold_left_pointwise _
             (fun '(T, sum) b => let m := m' b in let t := turnoutOf b in
                                 (T + t, sum + m / 100 * t))); [reflexivity|].
  intros [T sum] x. cbv zeta. rewrite H. reflexivity.
Qed.

(** The margin the solver starts from reads the sliders and the baseline
    only. *)
Lemma current_margin_inputs (st st' : Page) :
  demSwing st' = demSwing st -> gopSwing st' = gopSwing st -> baseMap st' = baseMap st ->
  computeCurrentStatewideMarginNoLocal st' = computeCurrentStatewideMarginNoLocal st.
Proof.
  intros Hd Hg Hb. unfold computeCurrentStatewideMarginNoLocal. rewrite Hb, Hd, Hg.
  apply weightedMargin_pointwise. intros b. cbv zeta.
  assert (E : projectedSwing st' (Some b) None = projectedSwing st (Some b) None).
  { unfold projectedSwing. rewrite !PageLaws.localSwingFor_None, Hd, Hg. reflexivity. }
  rewrite E. reflexivity.
Qed.

(** [runSolver] writes the solver's own fields and the tick only. *)
Lemma runSolver_preserves (st : Page) :
  demSwing (runSolver st) = demSwing st
  /\ gopSwing (runSolver st) = gopSwing st
  /\ baseMap (runSolver st) = baseMap st
  /\ baselineByYear (runSolver st) = baselineByYear st
  /\ solverMode (runSolver st) = solverMode st
  /\ solverTargetMargin (runSolver st) = solverTargetMargin st.
Proof.
  unfold runSolver.
  destruct (solverTargetMargin st) eqn:Et;
    try (cbn; rewrite ?Et; repeat split; reflexivity).
  destruct (JS.ltb _ _); [cbn; rewrite ?Et; repeat split; reflexivity|].
  destruct (values (baseMap st)) eqn:Ev; [cbn; rewrite ?Et; repeat split; reflexivity|].
  destruct (JS.leb _ _); [cbn; rewrite ?Et; repeat split; reflexivity|].
  destruct (buildLocal _ _ _ _ _ _). cbn. rewrite ?Et. repeat split; reflexivity.
Qed.

(** Two pages with the same sliders, baselines, mode and target get the
    same verdict; the solver either computes the same allocation for both
    or leaves the allocation of each as it was. *)
Lemma runSolver_congr (st st' : Page) :
  demSwing st' = demSwing st -> gopSwing st' = gopSwing st ->
  baseMap st' = baseMap st -> baselineByYear st' = baselineByYear st ->
  solverMode st' = solverMode st -> solverTargetMargin st' = solverTargetMargin st ->
  solverStatus (runSolver st') = solverStatus (runSolver st)
  /\ ((solverLocalSwings (runSolver st') = solverLocalSwings (runSolver st)
       /\ solverActive (runSolver st') = solverActive (runSolver st))
      \/ (solverLocalSwings (runSolver st) = solverLocalSwings st
          /\ solverActive (runSolver st) = solverActive st
          /\ solverLocalSwings (runSolver st') = solverLocalSwings st'
          /\ solverActive (runSolver st') = solverActive st')).
Proof.
  intros Hd Hg Hb Hy Hm Ht.
  pose proof (current_margin_inputs st st' Hd Hg Hb) as Hc.
  unfold runSolver, solverDelta. rewrite Ht, Hc, Hb, Hy, Hm.
  destruct (solverTargetMargin st);
    try (cbn; split; [reflexivity | right; repeat split; reflexivity]).
  destruct (JS.ltb _ _); [cbn; split; [reflexivity | left; split; reflexivity]|].
  destruct (values (baseMap st));
    [cbn; split; [reflexivity | right; repeat split; reflexivity]|].
  destruct (JS.leb _ _); [cbn; split; [reflexivity | right; repeat split; reflexivity]|].
  destruct (buildLocal _ _ _ _ _ _). cbn. rewrite ?Hm.
  split; [reflexivity | left; split; reflexivity].
Qed.

(** X12.  Solving twice is solving once: a second [runSolver] on the same
    inputs starts from the same current margin (which ignores the local
    swings of the first) and leaves the same local swings, active flag
    and status. *)
Theorem solver_idempotent (st : Page) :
  let st1 := runSolver st in
  let st2 := runSolver st1 in
  computeCurrentStatewideMarginNoLocal st1 = computeCurrentStatewideMarginNoLocal st
  /\ solverLocalSwings st2 = solverLocalSwings st1
  /\ solverActive st2 = solverActive st1
  /\ solverStatus st2 = solverStatus st1.
Proof.
  intros st1 st2. subst st2 st1.
  destruct (runSolver_preserves st) as (Hd & Hg & Hb & Hy & Hm & Ht).
  split; [apply current_margin_inputs; assumption|].
  destruct (runSolver_congr st (runSolver st) Hd Hg Hb Hy Hm Ht)
    as (Hs & [[Hl Ha] | (_ & _ & Hl & Ha)]); tauto.
Qed.

Lemma denom_upper (st : Page) :
  0 < totalTurnout (values (baseMap st)) -> denom st <= 3.
Proof.
  intros HT. unfold denom.
  apply Qle_trans with (Qsum (map (fun b => 3 * w st b) (values (baseMap st)))).
  - apply Qsum_le. intros b _.
    pose proof (w_nonneg st b HT). pose proof (e_range st b). nra.
  - rewrite Qsum_scale, (weights_sum st HT). lra.
Qed.

(** The margin change stored for a county, as a number. *)
Lemma dUnit_value (st : Page) (target : Q) (b : CountyBaseline) :
  solverTargetMargin st = JS.PNum target ->
  0.05 <= Qabs (solverDelta st target) ->
  0 < totalTurnout (values (baseMap st)) ->
  In b (values (baseMap st)) ->
  dUnit (runSolver st) b == solverDelta st target * e st b / denom st.
Proof.
  intros Ht Hd HT Hb.
  destruct (dUnit_applied st target b Ht Hd HT Hb) as (dC & Hl & HdC).
  unfold dUnit. rewrite Hl. cbn [gop dem].
  apply Qeq_trans with dC; [field | exact HdC].
Qed.

Lemma weighted_dUnit_sum (st : Page) (target : Q) :
  solverTargetMargin st = JS.PNum target ->
  0.05 <= Qabs (solverDelta st target) ->
  0 < totalTurnout (values (baseMap st)) ->
  Qsum (map (fun b => w st b * dUnit (runSolver st) b) (values (baseMap st)))
  == solverDelta st target.
Proof.
  intros Ht Hd HT.
  pose proof (denom_lower st HT) as Hden.
  rewrite (Qsum_ext _ (fun b => (solverDelta st target / denom st) * (w st b * e st b)))
    by (intros b Hb; cbv beta; rewrite (dUnit_value st target b Ht Hd HT Hb); field; lra).
  rewrite Qsum_scale.
  change (Qsum (map (fun b => w st b * e st b) (values (baseMap st)))) with (denom st).
  field. lra.
Qed.

(** The factor [e_i / denom] lies between 1/6 and 6 and grows with [e_i]. *)
Lemma factor_range (st : Page) (b : CountyBaseline) :
  0 < totalTurnout (values (baseMap st)) ->
  (1 # 6) <= e st b / denom st <= 6.
Proof.
  intros HT.
  pose proof (denom_lower st HT). pose proof (denom_upper st HT).
  pose proof (e_range st b).
  split.
  - apply Qle_shift_div_l; lra.
  - apply Qle_shift_div_r; lra.
Qed.

Lemma scaled_change (delta k k' u u' : Q) :
  (1 # 6) <= k <= 6 -> (1 # 6) <= k' <= 6 ->
  u == delta * k -> u' == delta * k' ->
  Qabs delta / 6 <= Qabs u <= 6 * Qabs delta
  /\ (0 < delta -> 0 < u)
  /\ (delta < 0 -> u < 0)
  /\ (k <= k' -> Qabs u <= Qabs u').
Proof.
  intros Hk Hk' E E'.
  assert (Hdiv : Qabs delta / 6 == (1 # 6) * Qabs delta) by field.
  generalize dependent (Qabs delta / 6). intros sixth Hdiv.
  q_cases. repeat split; intros; nra.
Qed.

(** No county of the scope is left where it was. *)
Lemma allocation_nonzero (st : Page) (target : Q) (b : CountyBaseline) :
  solverTargetMargin st = JS.PNum target ->
  0.05 <= Qabs (solverDelta st target) ->
  0 < totalTurnout (values (baseMap st)) ->
  In b (values (baseMap st)) ->
  0 < Qabs (dUnit (runSolver st) b).
Proof.
  intros Ht Hd HT Hb.
  pose proof (factor_range st b HT) as Hk.
  assert (E : dUnit (runSolver st) b == solverDelta st target * (e st b / denom st)).
  { rewrite (dUnit_value st target b Ht Hd HT Hb).
    pose proof (denom_lower st HT). field. lra. }
  destruct (scaled_change (solverDelta st target) _ _ _ _ Hk Hk E E) as ([B1 _] & _).
  assert (Hdiv : Qabs (solverDelta st target) / 6 == (1 # 6) * Qabs (solverDelta st target))
    by field.
  lra.
Qed.

(** X15.  An applied allocation moves every county of the scope in the
    requested direction, by at least a sixth and at most six times the
    requested change, and a county of larger elasticity is never moved
    less. *)
Theorem allocation_bounds (st : Page) (target : Q) (b b' : CountyBaseline) :
  let delta := solverDelta st target in
  let st' := runSolver st in
  solverTargetMargin st = JS.PNum target ->
  0.05 <= Qabs delta ->
  0 < totalTurnout (values (baseMap st)) ->
  In b (values (baseMap st)) ->
  In b' (values (baseMap st)) ->
  Qabs delta / 6 <= Qabs (dUnit st' b) <= 6 * Qabs delta
  /\ (0 < delta -> 0 < dUnit st' b)
  /\ (delta < 0 -> dUnit st' b < 0)
  /\ (e st b <= e st b' -> Qabs (dUnit st' b) <= Qabs (dUnit st' b')).
Proof.
  intros delta st' Ht Hd HT Hb Hb'.
  pose proof (factor_range st b HT) as Hk.
  pose proof (factor_range st b' HT) as Hk'.
  assert (Hmono : e st b <= e st b' -> e st b / denom st <= e st b' / denom st).
  { intros L. pose proof (denom_lower st HT).
    apply Qle_shift_div_l; [lra|].
    assert (X : e st b / denom st * denom st == e st b) by (field; lra).
    rewrite X. exact L. }
  assert (E : dUnit st' b == delta * (e st b / denom st)).
  { subst st' delta. rewrite (dUnit_value st target b Ht Hd HT Hb).
    pose proof (denom_lower st HT). field. lra. }
  assert (E' : dUnit st' b' == delta * (e st b' / denom st)).
  { subst st' delta. rewrite (dUnit_value st target b' Ht Hd HT Hb').
    pose proof (denom_lower st HT). field. lra. }
  destruct (scaled_change delta _ _ _ _ Hk Hk' E E') as (B1 & B2 & B3 & B4).
  split; [exact B1|]. split; [exact B2|]. split; [exact B3|].
  intros L. apply B4, Hmono, L.
Qed.

Lemma allocation_bounds_witness :
  let st := Examples.twoUnits (JS.PNum 3) elastic in
  0 < dUnit (runSolver st) Examples.countyA.
Proof.
  cbv zeta.
  assert (E : values (baseMap (Examples.twoUnits (JS.PNum 3) elastic))
              = [Examples.countyB; Examples.countyA]) by (vm_compute; reflexivity).
  assert (Hd : 0.05 <= Qabs (solverDelta (Examples.twoUnits (JS.PNum 3) elastic) 3))
    by (vm_compute; discriminate).
  assert (HT : 0 < totalTurnout (values (baseMap (Examples.twoUnits (JS.PNum 3) elastic))))
    by (vm_compute; reflexivity).
  assert (Hb : In Examples.countyA (values (baseMap (Examples.twoUnits (JS.PNum 3) elastic))))
    by (rewrite E; right; left; reflexivity).
  assert (Hpos : 0 < solverDelta (Examples.twoUnits (JS.PNum 3) elastic) 3)
    by (vm_compute; reflexivity).
  exact (proj1 (proj2 (allocation_bounds (Examples.twoUnits (JS.PNum 3) elastic) 3
                         Examples.countyA Examples.countyA eq_refl Hd HT Hb Hb)) Hpos).
Defined.

Lemma Qsum_plus {A : Type} (f h : A -> Q) (l : list A) :
  Qsum (map (fun x => f x + h x) l) == Qsum (map f l) + Qsum (map h l).
Proof.
  induction l as [|x l IH]; simpl; [ring|]. rewrite IH. ring.
Qed.

Lemma filter_all (sf : string) (l : list CountyBaseline) :
  (forall b, In b l -> stateFips b = sf) ->
  filter (fun b => stateFips b = sf) l = l.
Proof.
  induction l as [|x l IH]; intros H; [reflexivity|].
  rewrite filter_cons_True by (apply H; left; reflexivity).
  rewrite IH by (intros b Hb; apply H; right; exact Hb). reflexivity.
Qed.

Lemma positive_turnout_nonempty (l : list CountyBaseline) :
  0 < totalTurnout l -> l <> [].
Proof. intros H E. rewrite E in H. unfold totalTurnout in H. simpl in H. lra. Qed.

Lemma solverActive_applied (st : Page) (target : Q) :
  solverTargetMargin st = JS.PNum target ->
  0.05 <= Qabs (solverDelta st target) ->
  0 < totalTurnout (values (baseMap st)) ->
  solverActive (runSolver st) = true.
Proof.
  intros Ht Hd HT.
  rewrite (runSolver_applied st target Ht Hd (positive_turnout_nonempty _ HT) HT).
  reflexivity.
Qed.

(** What [projectedSwing] reads back for a county after an applied solve. *)
Lemma localSwingFor_applied (st : Page) (target : Q) (b : CountyBaseline) :
  solverTargetMargin st = JS.PNum target ->
  0.05 <= Qabs (solverDelta st target) ->
  0 < totalTurnout (values (baseMap st)) ->
  In b (values (baseMap st)) ->
  fips b <> EmptyString ->
  exists dC,
    localSwingFor (runSolver st) (Some (fips b)) = mkLocal ((- dC) / 2) (dC / 2)
    /\ dUnit (runSolver st) b == dC.
Proof.
  intros Ht Hd HT Hb Hf.
  destruct (dUnit_applied st target b Ht Hd HT Hb) as (dC & Hl & _).
  exists dC. split.
  - unfold localSwingFor, truthyFips.
    rewrite (solverActive_applied st target Ht Hd HT).
    apply String.eqb_neq in Hf. rewrite Hf, Hl. reflexivity.
  - unfold dUnit. rewrite Hl. cbn [gop dem]. field.
Qed.

(** The margin of a county before the solve, when the sliders alone do
    not saturate its shares. *)
Lemma sliderMargin_linear (st : Page) (b : CountyBaseline) :
  0 < totalVotes2024 b ->
  let d0 := votesDem2024 b / Qmax 1 (totalVotes2024 b) + demSwing st / 100 in
  let g0 := votesGop2024 b / Qmax 1 (totalVotes2024 b) + gopSwing st / 100 in
  0 <= d0 -> 0 <= g0 -> d0 + g0 <= 1 ->
  sliderMargin st b == (g0 - d0) * 100.
Proof.
  intros Hpos d0 g0 Hd Hg Hs. unfold sliderMargin. cbv zeta.
  destruct (JS.nonzero (demSwing st) || JS.nonzero (gopSwing st)) eqn:E.
  - pose proof (PageLaws.projectedSwing_linear st b None Hpos) as L.
    rewrite PageLaws.localSwingFor_None in L. cbv zeta in L. cbn [dem gop] in L.
    assert (Ed : votesDem2024 b / Qmax 1 (totalVotes2024 b) + demSwing st / 100 + 0 / 100 == d0)
      by (subst d0; field; q_cases; lra).
    assert (Eg : votesGop2024 b / Qmax 1 (totalVotes2024 b) + gopSwing st / 100 + 0 / 100 == g0)
      by (subst g0; field; q_cases; lra).
    rewrite L by (rewrite ?Ed, ?Eg; lra). rewrite Ed, Eg. reflexivity.
  - apply orb_false_iff in E as [Zd Zg].
    apply JSFacts.nonzero_false in Zd. apply JSFacts.nonzero_false in Zg.
    destruct (PageLaws.projectedSwing_margins st b None Hpos) as (Hb & _).
    cbv zeta in Hb. rewrite Hb. subst d0 g0. rewrite Zd, Zg. field. q_cases. lra.
Qed.

(** The margin of a county after an applied solve, when its shares do not
    saturate: the margin before plus the stored change. *)
Lemma unitMargin_shift (st : Page) (target : Q) (b : CountyBaseline) :
  solverTargetMargin st = JS.PNum target ->
  0.05 <= Qabs (solverDelta st target) ->
  0 < totalTurnout (values (baseMap st)) ->
  In b (values (baseMap st)) ->
  fips b <> EmptyString ->
  0 < totalVotes2024 b ->
  let d0 := votesDem2024 b / Qmax 1 (totalVotes2024 b) + demSwing st / 100 in
  let g0 := votesGop2024 b / Qmax 1 (totalVotes2024 b) + gopSwing st / 100 in
  0 <= d0 -> 0 <= g0 -> d0 + g0 <= 1 ->
  0 <= d0 - dUnit (runSolver st) b / 200 ->
  0 <= g0 + dUnit (runSolver st) b / 200 ->
  unitMargin (runSolver st) b == sliderMargin st b + dUnit (runSolver st) b.
Proof.
  intros Ht Hd HT Hb Hf Hpos d0 g0 Nd Ng Ns Nd' Ng'.
  rewrite (sliderMargin_linear st b Hpos Nd Ng Ns).
  destruct (localSwingFor_applied st target b Ht Hd HT Hb Hf) as (dC & Hloc & HdC).
  destruct (runSolver_preserves st) as (Pd & Pg & _).
  unfold unitMargin. cbv zeta.
  assert (HA : anySwing (runSolver st) = true).
  { unfold anySwing. rewrite (solverActive_applied st target Ht Hd HT).
    apply orb_true_r. }
  rewrite HA.
  pose proof (PageLaws.projectedSwing_linear (runSolver st) b (Some (fips b)) Hpos) as L.
  rewrite Hloc, Pd, Pg in L. cbv zeta in L. cbn [dem gop] in L.
  assert (Ed : votesDem2024 b / Qmax 1 (totalVotes2024 b) + demSwing st / 100
               + (- dC) / 2 / 100 == d0 - dUnit (runSolver st) b / 200)
    by (subst d0; rewrite HdC; field; q_cases; lra).
  assert (Eg : votesGop2024 b / Qmax 1 (totalVotes2024 b) + gopSwing st / 100
               + dC / 2 / 100 == g0 + dUnit (runSolver st) b / 200)
    by (subst g0; rewrite HdC; field; q_cases; lra).
  assert (Es : d0 - dUnit (runSolver st) b / 200 + (g0 + dUnit (runSolver st) b / 200)
               == d0 + g0) by ring.
  rewrite L by (rewrite ?Ed, ?Eg, ?Es; lra).
  rewrite Ed, Eg. subst d0 g0. field. q_cases. lra.
Qed.

(** X13.  The solve reaches its target.  For a scope that lies in one
    state, with non-empty county codes, whose shares saturate neither
    under the sliders alone nor with the stored local swing added (no
    clamp, no renormalisation), the projected margin of the state after
    [runSolver] is the target margin. *)
Theorem solver_reaches_target (st : Page) (target : Q) (sf : string) :
  let units := values (baseMap st) in
  let st' := runSolver st in
  solverTargetMargin st = JS.PNum target ->
  0 < totalTurnout units ->
  0.05 <= Qabs (solverDelta st target) ->
  (forall b, In b units -> stateFips b = sf /\ fips b <> EmptyString) ->
  (forall b, In b units -> 0 < totalVotes2024 b ->
     let d0 := votesDem2024 b / Qmax 1 (totalVotes2024 b) + demSwing st / 100 in
     let g0 := votesGop2024 b / Qmax 1 (totalVotes2024 b) + gopSwing st / 100 in
     0 <= d0 /\ 0 <= g0 /\ d0 + g0 <= 1
     /\ 0 <= d0 - dUnit st' b / 200 /\ 0 <= g0 + dUnit st' b / 200) ->
  computeStateProjectedMargin st' sf == target.
Proof.
  intros units st' Ht HT Hd Hscope Hlin.
  destruct (runSolver_preserves st) as (_ & _ & Pb & _).
  unfold computeStateProjectedMargin. fold st'.
  change (fun b => let p := projectedSwing st' (Some b) (Some (fips b)) in
                   if anySwing st' then newMargin p else baseMargin p)
    with (unitMargin st').
  subst st'. rewrite Pb. fold units.
  rewrite (filter_all sf units) by (intros b Hb; apply Hscope, Hb).
  assert (HTs : 0 < Qsum (map turnoutOf units))
    by (rewrite <- totalTurnout_sum; exact HT).
  assert (Hcur : computeCurrentStatewideMarginNoLocal st
                 == Qsum (map (fun b => sliderMargin st b * turnoutOf b) units)
                    / Qsum (map turnoutOf units)).
  { unfold computeCurrentStatewideMarginNoLocal.
    change (fun b => let p := projectedSwing st (Some b) None in
                     if JS.nonzero (demSwing st) || JS.nonzero (gopSwing st)
                     then newMargin p else baseMargin p)
      with (sliderMargin st).
    apply weightedMargin_sums. exact HTs. }
  destruct (weightedMargin_sums (unitMargin (runSolver st)) units) as [Hnew _].
  rewrite (Hnew HTs).
  rewrite (Qsum_ext (fun b => unitMargin (runSolver st) b * turnoutOf b)
             (fun b => sliderMargin st b * turnoutOf b
                       + totalTurnout units * (w st b * dUnit (runSolver st) b))).
  - pose proof (weighted_dUnit_sum st target Ht Hd HT) as Hw. fold units in Hw.
    rewrite Qsum_plus, Qsum_scale, Hw.
    assert (Et : computeCurrentStatewideMarginNoLocal st + solverDelta st target == target)
      by (unfold solverDelta; ring).
    apply Qeq_trans with (computeCurrentStatewideMarginNoLocal st + solverDelta st target);
      [|exact Et].
    generalize (solverDelta st target). intros delta.
    rewrite Hcur, (totalTurnout_sum units). field. lra.
  - intros b Hb. cbv beta. unfold w, unitWeight. fold units.
    destruct (Qlt_le_dec 0 (totalVotes2024 b)) as [Hpos|Hle].
    + destruct (Hscope b Hb) as [_ Hf].
      destruct (Hlin b Hb Hpos) as (N1 & N2 & N3 & N4 & N5).
      rewrite (unitMargin_shift st target b Ht Hd HT Hb Hf Hpos N1 N2 N3 N4 N5).
      field. lra.
    + rewrite (turnoutOf_nonpos b Hle). field. lra.
Qed.

(** The two example counties, target +3 in elastic mode: the state ends
    at +3. *)
Lemma solver_reaches_target_witness :
  let st := Examples.twoUnits (JS.PNum 3) elastic in
  computeStateProjectedMargin (runSolver st) "17" == 3.
Proof.
  cbv zeta.
  assert (E : values (baseMap (Examples.twoUnits (JS.PNum 3) elastic))
              = [Examples.countyB; Examples.countyA]) by (vm_compute; reflexivity).
  assert (HT : 0 < totalTurnout (values (baseMap (Examples.twoUnits (JS.PNum 3) elastic))))
    by (vm_compute; reflexivity).
  assert (Hd : 0.05 <= Qabs (solverDelta (Examples.twoUnits (JS.PNum 3) elastic) 3))
    by (vm_compute; discriminate).
  apply (solver_reaches_target (Examples.twoUnits (JS.PNum 3) elastic) 3 "17" eq_refl HT Hd).
  - rewrite E. intros b [<- | [<- | []]]; split; first [reflexivity | discriminate].
  - rewrite E. intros b [<- | [<- | []]] _; cbv zeta;
      repeat split; vm_compute; discriminate.
Defined.

(** The running maximum of the third loop. *)
Lemma buildLocal_max (mode : SolverMode) (eMap wMap : gmap string Q) (delta dn : Q)
    (l : list CountyBaseline) (acc : gmap string LocalSwing * Q) :
  let r :=
    fold_left
      (fun '(local, maxAbs) b =>
         let w := getOr wMap (fips b) 0 in
         let dC := dCounty mode eMap delta dn b in
         let g := dC / 2 in
         let d := (- dC) / 2 in
         (<[fips b := mkLocal d g]> local, JS.max maxAbs (JS.abs dC)))
      l acc in
  snd acc <= snd r
  /\ (forall b, In b l -> Qabs (dCounty mode eMap delta dn b) <= snd r)
  /\ (snd r == snd acc
      \/ exists b, In b l /\ snd r == Qabs (dCounty mode eMap delta dn b)).
Proof.
  revert acc. induction l as [|x l IH]; intros [local maxAbs];
    cbn [fold_left]; cbv beta iota zeta.
  - cbn [snd]. split; [lra|]. split; [intros b []|]. left. reflexivity.
  - match goal with
    | |- context [fold_left _ l ?a] => destruct (IH a) as (I1 & I2 & I3)
    end.
    cbv zeta in I1, I2, I3. cbn [snd] in *.
    match type of I1 with _ <= snd ?r => generalize dependent (snd r) end.
    intros M I1 I2 I3.
    assert (Hstep : maxAbs <= JS.max maxAbs (JS.abs (dCounty mode eMap delta dn x))
                    /\ Qabs (dCounty mode eMap delta dn x)
                       <= JS.max maxAbs (JS.abs (dCounty mode eMap delta dn x))
                    /\ (JS.max maxAbs (JS.abs (dCounty mode eMap delta dn x)) == maxAbs
                        \/ JS.max maxAbs (JS.abs (dCounty mode eMap delta dn x))
                           == Qabs (dCounty mode eMap delta dn x))).
    { generalize (dCounty mode eMap delta dn x). intros c. q_cases. lra. }
    destruct Hstep as (S1 & S2 & S3).
    generalize dependent (JS.max maxAbs (JS.abs (dCounty mode eMap delta dn x))).
    intros M0 I1 I3 S1 S2 S3.
    split; [lra|]. split.
    + intros b [<- | Hb]; [lra | apply I2, Hb].
    + destruct I3 as [I3 | (b & Hb & I3)].
      * destruct S3 as [S3 | S3].
        -- left. lra.
        -- right. exists x. split; [left; reflexivity | lra].
      * right. exists b. split; [right; exact Hb | exact I3].
Qed.

(** X14.  The status of an applied solve reports the requested change
    and the true maximum: no county of the scope is moved by more than
    the reported maximum, and some county is moved by exactly it. *)
Theorem reported_maximum (st : Page) (target : Q) :
  let units := values (baseMap st) in
  let st' := runSolver st in
  solverTargetMargin st = JS.PNum target ->
  0 < totalTurnout units ->
  0.05 <= Qabs (solverDelta st target) ->
  exists maxAbs,
    solverStatus st' = StatusApplied (solverMode st) (solverDelta st target) maxAbs
    /\ (forall b, In b units -> Qabs (dUnit st' b) <= maxAbs)
    /\ (exists b, In b units /\ maxAbs == Qabs (dUnit st' b)).
Proof.
  intros units st' Ht HT Hd. subst units.
  pose proof (positive_turnout_nonempty _ HT) as Hne.
  pose proof (runSolver_applied st target Ht Hd Hne HT) as Hrun. cbv zeta in Hrun.
  match type of Hrun with
  | context [StatusApplied _ _ (snd ?r)] => exists (snd r); set (R := r) in *
  end.
  assert (HdU : forall b, In b (values (baseMap st)) ->
            dUnit st' b
            == dCounty (solverMode st)
                 (buildEMap (baselineByYear st) (years st) (values (baseMap st)))
                 (solverDelta st target)
                 (solverDenom (solverMode st)
                    (buildEMap (baselineByYear st) (years st) (values (baseMap st)))
                    (totalTurnout (values (baseMap st))) (values (baseMap st))) b).
  { intros b Hb. unfold dUnit. subst st'. rewrite Hrun.
    cbn [solverLocalSwings bumpTickKey setSolverStatus setSolverActive
         setSolverLocalSwings].
    subst R. rewrite (buildLocal_lookup _ _ _ _ _ _ b Hb). cbn [gop dem]. field. }
  destruct (buildLocal_max (solverMode st)
              (buildEMap (baselineByYear st) (years st) (values (baseMap st)))
              (snd (buildDenom (solverMode st)
                      (buildEMap (baselineByYear st) (years st) (values (baseMap st)))
                      (totalTurnout (values (baseMap st))) (values (baseMap st))))
              (solverDelta st target)
              (solverDenom (solverMode st)
                 (buildEMap (baselineByYear st) (years st) (values (baseMap st)))
                 (totalTurnout (values (baseMap st))) (values (baseMap st)))
              (values (baseMap st)) (∅, 0)) as (M1 & M2 & M3).
  cbv zeta in M1, M2, M3. cbn [snd] in M1, M3.
  change (fold_left _ (values (baseMap st)) (∅, 0)) with R in M1, M2, M3.
  split; [subst st'; rewrite Hrun; reflexivity|]. split.
  - intros b Hb. rewrite (HdU b Hb). apply M2, Hb.
  - destruct M3 as [M3 | (b & Hb & M3)].
    + exfalso.
      assert (Hex : exists b0, In b0 (values (baseMap st))).
      { revert Hne. destruct (values (baseMap st)) as [|b0 l]; intros Hne;
          [contradiction | exists b0; left; reflexivity]. }
      destruct Hex as [b0 Hb0].
      pose proof (M2 b0 Hb0) as Hle. rewrite <- (HdU b0 Hb0) in Hle.
      pose proof (allocation_nonzero st target b0 Ht Hd HT Hb0) as Hnz.
      fold st' in Hnz. lra.
    + exists b. split; [exact Hb|]. rewrite (HdU b Hb). exact M3.
Qed.

Lemma reported_maximum_witness :
  let st := Examples.twoUnits (JS.PNum 3) elastic in
  exists maxAbs,
    solverStatus (runSolver st) = StatusApplied (solverMode st) (solverDelta st 3) maxAbs
    /\ (forall b, In b (values (baseMap st)) -> Qabs (dUnit (runSolver st) b) <= maxAbs)
    /\ (exists b, In b (values (baseMap st)) /\ maxAbs == Qabs (dUnit (runSolver st) b)).
Proof.
  cbv zeta.
  assert (HT : 0 < totalTurnout (values (baseMap (Examples.twoUnits (JS.PNum 3) elastic))))
    by (vm_compute; reflexivity).
  assert (Hd : 0.05 <= Qabs (solverDelta (Examples.twoUnits (JS.PNum 3) elastic) 3))
    by (vm_compute; discriminate).
  exact (reported_maximum (Examples.twoUnits (JS.PNum 3) elastic) 3 eq_refl HT Hd).
Defined.

End SolverLaws.

(** ** Laws of the colour functions *)

Module ColourLaws.

Import Swing.

(** A radix-16 digit is below 16 and is none of the characters the
    parser treats specially. *)
Lemma hexDigit_Some (c : ascii) (d : N) :
  JS.hexDigit c = Some d ->
  (d < 16)%N /\ JS.isWhiteSpace c = false
  /\ JS.stripSign (String c EmptyString) = (false, String c EmptyString)
  /\ Ascii.eqb c "#" = false /\ Ascii.eqb c "x" = false /\ Ascii.eqb c "X" = false.
Proof.
  destruct c as [[] [] [] [] [] [] [] []]; vm_compute; intros H;
    first [discriminate H | injection H as <-; repeat split; reflexivity].
Qed.

Lemma stripSign_digit (c : ascii) (d : N) (s : string) :
  JS.hexDigit c = Some d -> JS.stripSign (String c s) = (false, String c s).
Proof.
  destruct c as [[] [] [] [] [] [] [] []]; vm_compute; intros H;
    first [discriminate H | reflexivity].
Qed.

Lemma stripHexPrefix_digits (c1 c2 : ascii) (d2 : N) (s : string) :
  JS.hexDigit c2 = Some d2 ->
  JS.stripHexPrefix (String c1 (String c2 s)) = String c1 (String c2 s).
Proof.
  intros H. destruct c1 as [[] [] [] [] [] [] [] []]; try reflexivity.
  destruct c2 as [[] [] [] [] [] [] [] []]; vm_compute in H;
    first [discriminate H | reflexivity].
Qed.

Lemma roundToDouble_exact (m : N) : (m < 2 ^ 53)%N -> JS.roundToDouble m = Some m.
Proof.
  intros H. unfold JS.roundToDouble.
  destruct (N.size m <=? 53)%N eqn:E; [reflexivity|].
  apply N.leb_gt in E. exfalso.
  pose proof (N.size_le m) as L.
  assert (P : (2 ^ 54 <= 2 ^ N.size m)%N) by (apply N.pow_le_mono_r; lia).
  rewrite N.succ_double_spec in L.
  change (2 ^ 53)%N with 9007199254740992%N in H.
  change (2 ^ 54)%N with 18014398509481984%N in P. lia.
Qed.

(** [parseInt(s, 16)] on a text that starts with two digits. *)
Lemma parseInt16_digits (c1 c2 : ascii) (d1 d2 : N) (s : string) :
  JS.hexDigit c1 = Some d1 -> JS.hexDigit c2 = Some d2 ->
  (JS.hexValue (d1 :: d2 :: JS.hexDigits s) < 2 ^ 53)%N ->
  JS.parseInt16 (String c1 (String c2 s))
  = JS.PNum (inject_Z (Z.of_N (JS.hexValue (d1 :: d2 :: JS.hexDigits s)))).
Proof.
  intros H1 H2 Hv. unfold JS.parseInt16.
  destruct (hexDigit_Some c1 d1 H1) as (_ & W & _).
  cbn [JS.trimStart]. rewrite W.
  rewrite (stripSign_digit c1 d1 _ H1), (stripHexPrefix_digits c1 c2 d2 s H2).
  cbn [JS.hexDigits]. rewrite H1, H2, (roundToDouble_exact _ Hv). reflexivity.
Qed.

(** A byte of a small natural number. *)
Lemma byteAt_nat (v : N) (k : Z) :
  (v < 2 ^ 31)%N -> (0 <= k)%Z ->
  JS.byteAt (JS.PNum (inject_Z (Z.of_N v))) k = ((Z.of_N v / 2 ^ k) mod 256)%Z.
Proof.
  intros Hv Hk. unfold JS.byteAt, JS.toInt32. cbn [inject_Z Qnum Qden].
  rewrite Z.quot_1_r.
  assert (B : (0 <= Z.of_N v < 2 ^ 31)%Z).
  { split; [lia|]. change (2 ^ 31)%Z with (Z.of_N (2 ^ 31)%N). lia. }
  rewrite Z.mod_small by (change (2 ^ 32)%Z with 4294967296%Z;
                          change (2 ^ 31)%Z with 2147483648%Z in B; lia).
  destruct (Z.of_N v <? 2 ^ 31)%Z eqn:E; [|apply Z.ltb_ge in E; lia].
  rewrite Z.shiftr_div_pow2 by exact Hk.
  change 255%Z with (Z.ones 8). rewrite Z.land_ones by lia. reflexivity.
Qed.

(** Every channel is a byte. *)
Lemma byteAt_range (n : JS.parsed) (k : Z) : (0 <= JS.byteAt n k <= 255)%Z.
Proof.
  unfold JS.byteAt. change 255%Z with (Z.ones 8) at 1 2.
  rewrite Z.land_ones by lia.
  pose proof (Z.mod_pos_bound (Z.shiftr (JS.toInt32 n) k) (2 ^ 8) ltac:(lia)) as B.
  change (2 ^ 8)%Z with 256%Z in *. unfold Z.ones. simpl. lia.
Qed.

(** The three bytes of six digits. *)
Lemma six_digits_bytes (d1 d2 d3 d4 d5 d6 : N) :
  (d1 < 16)%N -> (d2 < 16)%N -> (d3 < 16)%N ->
  (d4 < 16)%N -> (d5 < 16)%N -> (d6 < 16)%N ->
  let v := JS.hexValue [d1; d2; d3; d4; d5; d6] in
  (v < 2 ^ 31)%N /\ (v < 2 ^ 53)%N
  /\ ((Z.of_N v / 2 ^ 16) mod 256 = Z.of_N (16 * d1 + d2))%Z
  /\ ((Z.of_N v / 2 ^ 8) mod 256 = Z.of_N (16 * d3 + d4))%Z
  /\ ((Z.of_N v / 2 ^ 0) mod 256 = Z.of_N (16 * d5 + d6))%Z.
Proof.
  intros B1 B2 B3 B4 B5 B6 v. subst v. unfold JS.hexValue. cbn [fold_left].
  change (2 ^ 31)%N with 2147483648%N. change (2 ^ 53)%N with 9007199254740992%N.
  change (2 ^ 16)%Z with 65536%Z. change (2 ^ 8)%Z with 256%Z. change (2 ^ 0)%Z with 1%Z.
  split; [lia|]. split; [lia|].
  repeat split; Z.div_mod_to_equations; lia.
Qed.

(** [hexToRgba] on a text of six digits, with the leading [#] already
    removed. *)
Lemma decode_six (c1 c2 c3 c4 c5 c6 : ascii) (d1 d2 d3 d4 d5 d6 : N) :
  JS.hexDigit c1 = Some d1 -> JS.hexDigit c2 = Some d2 -> JS.hexDigit c3 = Some d3 ->
  JS.hexDigit c4 = Some d4 -> JS.hexDigit c5 = Some d5 -> JS.hexDigit c6 = Some d6 ->
  let n := JS.parseInt16
             (String c1 (String c2 (String c3 (String c4 (String c5 (String c6 EmptyString)))))) in
  JS.byteAt n 16 = Z.of_N (16 * d1 + d2)
  /\ JS.byteAt n 8 = Z.of_N (16 * d3 + d4)
  /\ JS.byteAt n 0 = Z.of_N (16 * d5 + d6).
Proof.
  intros H1 H2 H3 H4 H5 H6 n.
  destruct (hexDigit_Some c1 d1 H1) as (B1 & _).
  destruct (hexDigit_Some c2 d2 H2) as (B2 & _).
  destruct (hexDigit_Some c3 d3 H3) as (B3 & _).
  destruct (hexDigit_Some c4 d4 H4) as (B4 & _).
  destruct (hexDigit_Some c5 d5 H5) as (B5 & _).
  destruct (hexDigit_Some c6 d6 H6) as (B6 & _).
  destruct (six_digits_bytes d1 d2 d3 d4 d5 d6 B1 B2 B3 B4 B5 B6) as (V31 & V53 & R & G & B).
  assert (E : JS.hexDigits (String c3 (String c4 (String c5 (String c6 EmptyString))))
              = [d3; d4; d5; d6])
    by (cbn [JS.hexDigits]; rewrite H3, H4, H5, H6; reflexivity).
  subst n. rewrite (parseInt16_digits c1 c2 d1 d2 _ H1 H2); rewrite E; [|exact V53].
  rewrite !byteAt_nat by (first [exact V31 | lia]).
  repeat split; assumption.
Qed.

(** X16.  Whatever the text, [hexToRgba] returns three bytes and the
    alpha it was given; a text in which no number can be read gives
    black, not the grey of the [catch] branch. *)
Theorem hex_channels (h : string) (a : Q) :
  let c := hexToRgba h a in
  let s := JS.removeFirst "#" h in
  (0 <= red c <= 255)%Z /\ (0 <= green c <= 255)%Z /\ (0 <= blue c <= 255)%Z
  /\ alpha c = a
  /\ (JS.parseInt16 (if (String.length s =? 3)%nat then JS.doubleChars s else s) = JS.PNaN ->
      c = mkRgba 0 0 0 a).
Proof.
  intros c s. subst c. unfold hexToRgba. fold s. cbn [red green blue alpha].
  repeat split; try apply byteAt_range.
  intros E. rewrite E. reflexivity.
Qed.

Lemma hex_channels_witness : hexToRgba "rgb(255,0,0)" 235 = mkRgba 0 0 0 235.
Proof.
  apply (proj2 (proj2 (proj2 (proj2 (hex_channels "rgb(255,0,0)" 235))))).
  vm_compute. reflexivity.
Defined.

(** X17.  [hexToRgba] decodes colours: six digits, with or without the
    leading [#], give the bytes [16*d1+d2], [16*d3+d4], [16*d5+d6], and
    the three-digit shorthand gives [17*d1], [17*d2], [17*d3]. *)
Theorem hex_decodes (c1 c2 c3 c4 c5 c6 : ascii) (d1 d2 d3 d4 d5 d6 : N) (a : Q) :
  JS.hexDigit c1 = Some d1 -> JS.hexDigit c2 = Some d2 -> JS.hexDigit c3 = Some d3 ->
  JS.hexDigit c4 = Some d4 -> JS.hexDigit c5 = Some d5 -> JS.hexDigit c6 = Some d6 ->
  let six := String c1 (String c2 (String c3 (String c4 (String c5 (String c6 EmptyString))))) in
  let three := String c1 (String c2 (String c3 EmptyString)) in
  hexToRgba (String "#" six) a
  = mkRgba (Z.of_N (16 * d1 + d2)) (Z.of_N (16 * d3 + d4)) (Z.of_N (16 * d5 + d6)) a
  /\ hexToRgba six a = hexToRgba (String "#" six) a
  /\ hexToRgba (String "#" three) a
     = mkRgba (Z.of_N (17 * d1)) (Z.of_N (17 * d2)) (Z.of_N (17 * d3)) a.
Proof.
  intros H1 H2 H3 H4 H5 H6 six three.
  destruct (hexDigit_Some c1 d1 H1) as (_ & _ & _ & S1 & _).
  destruct (hexDigit_Some c2 d2 H2) as (_ & _ & _ & S2 & _).
  destruct (hexDigit_Some c3 d3 H3) as (_ & _ & _ & S3 & _).
  destruct (hexDigit_Some c4 d4 H4) as (_ & _ & _ & S4 & _).
  destruct (hexDigit_Some c5 d5 H5) as (_ & _ & _ & S5 & _).
  destruct (hexDigit_Some c6 d6 H6) as (_ & _ & _ & S6 & _).
  assert (R6 : JS.removeFirst "#" six = six)
    by (subst six; cbn [JS.removeFirst]; rewrite S1, S2, S3, S4, S5, S6; reflexivity).
  assert (E6 : hexToRgba six a
               = mkRgba (Z.of_N (16 * d1 + d2)) (Z.of_N (16 * d3 + d4))
                        (Z.of_N (16 * d5 + d6)) a).
  { unfold hexToRgba. rewrite R6. subst six. cbn [String.length Nat.eqb].
    destruct (decode_six c1 c2 c3 c4 c5 c6 d1 d2 d3 d4 d5 d6 H1 H2 H3 H4 H5 H6)
      as (R & G & B).
    cbv zeta in R, G, B. rewrite R, G, B. reflexivity. }
  assert (EH : hexToRgba (String "#" six) a = hexToRgba six a).
  { unfold hexToRgba. rewrite R6. cbn [JS.removeFirst]. reflexivity. }
  split; [rewrite EH; exact E6|]. split; [symmetry; exact EH|].
  assert (R3 : JS.removeFirst "#" (String "#" three) = three) by reflexivity.
  unfold hexToRgba. rewrite R3. subst three. cbn [String.length Nat.eqb JS.doubleChars].
  destruct (decode_six c1 c1 c2 c2 c3 c3 d1 d1 d2 d2 d3 d3 H1 H1 H2 H2 H3 H3)
    as (R & G & B).
  cbv zeta in R, G, B. rewrite R, G, B.
  replace (16 * d1 + d1)%N with (17 * d1)%N by lia.
  replace (16 * d2 + d2)%N with (17 * d2)%N by lia.
  replace (16 * d3 + d3)%N with (17 * d3)%N by lia.
  reflexivity.
Qed.

(** The colour [#E03B2F] of the palette and the shorthand [#abc]. *)
Lemma hex_decodes_witness :
  hexToRgba "#E03B2F" 235 = mkRgba 224 59 47 235
  /\ hexToRgba "#abc" 235 = mkRgba 170 187 204 235.
Proof.
  split.
  - exact (proj1 (hex_decodes "E" "0" "3" "B" "2" "F" 14 0 3 11 2 15 235
                    eq_refl eq_refl eq_refl eq_refl eq_refl eq_refl)).
  - exact (proj2 (proj2 (hex_decodes "a" "b" "c" "0" "0" "0" 10 11 12 0 0 0 235
                           eq_refl eq_refl eq_refl eq_refl eq_refl eq_refl))).
Defined.

(** The bucket of a margin, with the thresholds that enclose its
    magnitude. *)
Lemma bucket_bounds (m : Q) :
  let i := iowaMarginBinIndex (JS.abs m) in
  i = iowaMarginBinIndex m
  /\ (i <= 5)%nat
  /\ nth i [0; 1; 5; 10; 20; 30] 0 <= Qabs m
  /\ ((i < 5)%nat -> Qabs m < nth i [1; 5; 10; 20; 30] 0).
Proof.
  intros i. subst i. unfold iowaMarginBinIndex, JS.abs.
  assert (E : Qabs (Qabs m) == Qabs m) by (apply Qabs_pos, Qabs_nonneg).
  assert (L : forall c, JS.ltb (Qabs (Qabs m)) c = JS.ltb (Qabs m) c)
    by (intros c; unfold JS.ltb; rewrite E; reflexivity).
  rewrite !L. pose proof (Qabs_nonneg m) as Hnn.
  repeat match goal with
  | |- context [JS.ltb ?x ?y] =>
      let T := fresh "T" in
      destruct (JS.ltb x y) eqn:T;
      [apply JSFacts.ltb_lt in T | apply JSFacts.ltb_ge in T]
  end; cbn [nth]; repeat split; intros; first [lia | lra | reflexivity].
Qed.

(** X18.  For a finite margin [iowaMarginRgba] always finds its palette
    entry (the [catch] grey is never used): the GOP palette for a margin
    of zero or more, with red above blue, the Democratic palette below
    zero, with blue above red; on either side a margin of larger
    magnitude is never given a lighter colour; alpha passes through; a
    margin that is not finite gets the neutral grey [#64748B]. *)
Theorem margin_colour (m m' a : Q) :
  let c := iowaMarginRgba (JS.PNum m) a in
  let c' := iowaMarginRgba (JS.PNum m') a in
  let palette := if JS.leb 0 m then IOWA_GOP else IOWA_DEM in
  (exists h, nth_error palette (iowaMarginBinIndex m) = Some h /\ c = hexToRgba h a)
  /\ alpha c = a
  /\ (0 <= m -> (blue c < red c)%Z)
  /\ (m < 0 -> (red c < blue c)%Z)
  /\ (Qabs m <= Qabs m' -> JS.leb 0 m = JS.leb 0 m' ->
      (red c' + green c' + blue c' <= red c + green c + blue c)%Z)
  /\ iowaMarginRgba JS.PNaN a = hexToRgba "#64748B" a
  /\ (forall neg, iowaMarginRgba (JS.PInfinity neg) a = hexToRgba "#64748B" a).
Proof.
  intros c c' palette. subst c c' palette. unfold iowaMarginRgba.
  destruct (bucket_bounds m) as (Ei & Li & Lo & Hi).
  destruct (bucket_bounds m') as (Ei' & Li' & Lo' & Hi').
  cbv zeta in Ei, Li, Lo, Hi, Ei', Li', Lo', Hi'.
  rewrite <- Ei.
  generalize dependent (iowaMarginBinIndex (JS.abs m)). intros i _ Li Lo Hi.
  generalize dependent (iowaMarginBinIndex (JS.abs m')). intros i' _ Li' Lo' Hi'.
  assert (Hmono : Qabs m <= Qabs m' -> (i <= i')%nat).
  { intros H.
    destruct i as [|[|[|[|[|[|]]]]]]; try lia;
      destruct i' as [|[|[|[|[|[|]]]]]]; try lia;
      cbn [nth] in *; exfalso;
      match type of Hi' with ?P -> _ => assert (HP : P) by lia; specialize (Hi' HP) end;
      lra. }
  clear Lo Hi Lo' Hi'.
  split; [|split; [|split; [|split; [|split; [|split]]]]].
  - destruct (JS.leb 0 m);
      destruct i as [|[|[|[|[|[|]]]]]]; try lia; eexists; split; reflexivity.
  - destruct (JS.leb 0 m);
      destruct i as [|[|[|[|[|[|]]]]]]; try lia; reflexivity.
  - intros H. apply JSFacts.leb_le in H. rewrite H.
    destruct i as [|[|[|[|[|[|]]]]]]; try lia; vm_compute; reflexivity.
  - intros H. apply JSFacts.leb_gt in H. rewrite H.
    destruct i as [|[|[|[|[|[|]]]]]]; try lia; vm_compute; reflexivity.
  - intros H S. specialize (Hmono H). rewrite <- S.
    destruct (JS.leb 0 m);
      destruct i as [|[|[|[|[|[|]]]]]]; try lia;
      destruct i' as [|[|[|[|[|[|]]]]]]; try lia;
      vm_compute; discriminate.
  - reflexivity.
  - intros neg. reflexivity.
Qed.

Lemma margin_colour_witness :
  (blue (iowaMarginRgba (JS.PNum 7) 235) < red (iowaMarginRgba (JS.PNum 7) 235))%Z.
Proof.
  apply (proj1 (proj2 (proj2 (margin_colour 7 7 235)))). vm_compute. discriminate.
Defined.

End ColourLaws.

(** ** Laws of the map styling *)

Module StylingLaws.

Import RustBelt Spec RustBeltFacts.

(** The three ingredients of a county's elevation and their ranges. *)
Lemma elevation_parts (m tv tf p95 hs hw : Q) :
  let M := Swing.extrusionFromMarginIOWA m in
  let T := Swing.turnoutHeightFromVotesIOWA tv tf p95 in
  let sc := Swing.clamp hs 0.1 3 in
  let w := Swing.clamp hw 0 100 / 100 in
  1000 <= M <= 19000 /\ 1000 <= T <= 22600 /\ 0.1 <= sc <= 3 /\ 0 <= w <= 1
  /\ (100 <= hw -> w == 1) /\ (hw <= 0 -> w == 0).
Proof.
  intros M T sc w.
  pose proof (SwingLaws.extrusion_bounds m) as HM.
  pose proof (SwingLaws.turnoutHeight_bounds tv tf p95) as HT.
  pose proof (SwingFacts.clamp_bounds hs 0.1 3 ltac:(lra)) as Hs.
  pose proof (SwingFacts.clamp_bounds hw 0 100 ltac:(lra)) as Hw.
  split; [exact HM|]. split; [exact HT|]. split; [exact Hs|].
  subst w. unfold Qdiv.
  assert (C1 : 100 <= hw -> Swing.clamp hw 0 100 == 100) by (intros; unfold Swing.clamp; q_cases; lra).
  assert (C0 : hw <= 0 -> Swing.clamp hw 0 100 == 0) by (intros; unfold Swing.clamp; q_cases; lra).
  generalize dependent (Swing.clamp hw 0 100). intros c Hc C1 C0.
  assert (E : c * / 100 == c * (1 # 100)) by reflexivity.
  rewrite E.
  repeat split; intros; lra.
Qed.

(** X19.  A county missing from the baseline is drawn at the base height
    1000; a county of the baseline is drawn between 175 and 118650; in
    hybrid mode its height lies between its heights in margin and in
    turnout mode, and a mix of 100 or more (0 or less) is the margin
    (turnout) mode. *)
Theorem county_elevation_range (st : Page) (v : View) (fips : string) :
  let h := countyElevation st v fips in
  let hM := countyElevation st (setExtrusionMode marginMode v) fips in
  let hT := countyElevation st (setExtrusionMode turnoutMode v) fips in
  (baseMap st !! fips = None -> h = 1000)
  /\ (is_Some (baseMap st !! fips) -> 175 <= h <= 118650)
  /\ (extrusionMode v = hybridMode ->
      Qmin hM hT <= h <= Qmax hM hT
      /\ (100 <= hybridWeight v -> h == hM)
      /\ (hybridWeight v <= 0 -> h == hT)).
Proof.
  intros h hM hT. subst h hM hT. unfold countyElevation. cbn [extrusionMode setExtrusionMode
    turnoutShift hybridWeight heightScale statsP95].
  destruct (baseMap st !! fips) as [b|] eqn:E.
  - destruct (elevation_parts (shownMargin st b fips) (JS.orElse (totalVotes2024 b) 0)
                (Swing.clamp (1 + turnoutShift v / 100) 0.5 1.5) (statsP95 v)
                (heightScale v) (hybridWeight v)) as (HM & HT & Hs & Hw & W1 & W0).
    cbv zeta in HM, HT, Hs, Hw, W1, W0.
    generalize dependent (Swing.extrusionFromMarginIOWA (shownMargin st b fips)).
    intros M HM.
    generalize dependent (Swing.turnoutHeightFromVotesIOWA (JS.orElse (totalVotes2024 b) 0)
                            (Swing.clamp (1 + turnoutShift v / 100) 0.5 1.5) (statsP95 v)).
    intros T HT.
    generalize dependent (Swing.clamp (heightScale v) 0.1 3). intros sc Hs.
    generalize dependent (Swing.clamp (hybridWeight v) 0 100 / 100). intros w Hw W1 W0.
    assert (HH : 1000 <= w * M + (1 - w) * T <= 22600
                 /\ (M <= T -> M <= w * M + (1 - w) * T <= T)
                 /\ (T <= M -> T <= w * M + (1 - w) * T <= M)) by (repeat split; intros; nra).
    assert (Sc : forall x y : Q, x <= y -> x * sc * 1.75 <= y * sc * 1.75) by (intros; nra).
    split; [discriminate|]. split.
    + intros _.
      assert (B : forall x : Q, 1000 <= x <= 22600 -> 175 <= x * sc * 1.75 <= 118650).
      { intros x Hx. pose proof (Sc 1000 x ltac:(lra)). pose proof (Sc x 22600 ltac:(lra)).
        assert (100 <= 1000 * sc) by lra. assert (22600 * sc <= 67800) by lra. lra. }
      destruct (extrusionMode v); apply B; lra.
    + intros Hm. rewrite Hm. destruct HH as (_ & H1 & H2). split; [|split].
      * destruct (Qlt_le_dec M T) as [L|L].
        -- destruct (H1 ltac:(lra)) as [A1 A2].
           pose proof (Sc _ _ A1). pose proof (Sc _ _ A2). q_cases. lra.
        -- destruct (H2 L) as [A1 A2].
           pose proof (Sc _ _ A1). pose proof (Sc _ _ A2). q_cases. lra.
      * intros H. rewrite (W1 H). ring.
      * intros H. rewrite (W0 H). ring.
  - split; [reflexivity|]. split; [intros [x Hx]; discriminate Hx|].
    intros _. split; [q_cases; lra|]. split; intros; reflexivity.
Qed.

Lemma county_elevation_range_witness :
  let st := Examples.twoUnits JS.PNaN uniform in
  let v := mkView 0 hybridMode 60 1 (2 # 5) false 235 300 in
  175 <= countyElevation st v "17001" <= 118650.
Proof.
  cbv zeta.
  assert (H : is_Some (baseMap (Examples.twoUnits JS.PNaN uniform) !! "17001"%string))
    by (eexists; vm_compute; reflexivity).
  exact (proj1 (proj2 (county_elevation_range (Examples.twoUnits JS.PNaN uniform)
                         (mkView 0 hybridMode 60 1 (2 # 5) false 235 300) "17001")) H).
Defined.

(** [padStart(2,'0')] never gives the empty string, keeps a code of two
    or more characters and puts zeros before a shorter one. *)
Lemma padStart2_facts (s : string) :
  (2 <= String.length (JS.padStart 2 "0" s))%nat
  /\ ((2 <= String.length s)%nat -> JS.padStart 2 "0" s = s)
  /\ (s = EmptyString -> JS.padStart 2 "0" s = "00"%string).
Proof.
  unfold JS.padStart.
  destruct s as [|a [|b r]];
    cbv [String.append JS.repeatChar Nat.sub String.length]; fold String.length.
  - repeat split; [lia | intros H; lia].
  - repeat split; [lia | intros H; lia | discriminate].
  - repeat split; [lia | discriminate].
Qed.

(** X20.  The state layer pads the state code of a feature to two
    characters, so the code is never empty and the branch returning 0 is
    never taken: every state is drawn at its margin extrusion times the
    two clamped scales times 0.6, between 6 and 171000.  A code of two
    characters or more is used as it is.  A feature without any state
    code gets the code 00, and when no county of the baseline has that
    code it is drawn at [1000 * hs * shs * 0.6]. *)
Theorem state_elevation_range (st : Page) (v : View) (p : StateProperties) :
  let hs := Swing.clamp (heightScale v) 0.1 3 in
  let shs := Swing.clamp (stateHeightScale v) 0.1 5.0 in
  let h := stateElevation st v p in
  (exists sf, to2 (Some (stateProperty p)) = Some sf
              /\ (2 <= String.length sf)%nat
              /\ h = Swing.extrusionFromMarginIOWA (computeStateProjectedMargin st sf)
                     * hs * shs * 0.6)
  /\ 6 <= h <= 171000
  /\ ((2 <= String.length (stateProperty p))%nat ->
      to2 (Some (stateProperty p)) = Some (stateProperty p))
  /\ (stateProperty p = EmptyString ->
      to2 (Some (stateProperty p)) = Some "00"%string
      /\ (filter (fun b => stateFips b = "00"%string) (values (baseMap st)) = [] ->
          h == 1000 * hs * shs * 0.6)).
Proof.
  intros hs shs h.
  destruct (padStart2_facts (stateProperty p)) as (Hlen & Hkeep & Hempty).
  assert (Hform : h = Swing.extrusionFromMarginIOWA
                        (computeStateProjectedMargin st (JS.padStart 2 "0" (stateProperty p)))
                      * hs * shs * 0.6).
  { subst h. unfold stateElevation, to2, truthyFips.
    destruct (JS.padStart 2 "0" (stateProperty p)) as [|a r] eqn:E;
      [cbn in Hlen; lia | reflexivity]. }
  split; [|split; [|split]].
  - eexists. split; [reflexivity|]. split; [exact Hlen | exact Hform].
  - rewrite Hform.
    pose proof (SwingLaws.extrusion_bounds
                  (computeStateProjectedMargin st (JS.padStart 2 "0" (stateProperty p)))) as HM.
    pose proof (SwingFacts.clamp_bounds (heightScale v) 0.1 3 ltac:(lra)) as Hs.
    pose proof (SwingFacts.clamp_bounds (stateHeightScale v) 0.1 5.0 ltac:(lra)) as Hss.
    fold hs in Hs. fold shs in Hss.
    generalize dependent (Swing.extrusionFromMarginIOWA
                            (computeStateProjectedMargin st (JS.padStart 2 "0" (stateProperty p)))).
    intros M _ HM. clearbody hs shs.
    assert (P1 : 100 <= M * hs <= 57000) by nra.
    generalize dependent (M * hs). intros x P1.
    assert (P2 : 10 <= x * shs <= 285000) by nra.
    generalize dependent (x * shs). intros y P2. lra.
  - intros H. unfold to2. rewrite (Hkeep H). reflexivity.
  - intros H. split; [unfold to2; rewrite (Hempty H); reflexivity|].
    intros Hnone. rewrite Hform, (Hempty H).
    unfold computeStateProjectedMargin. rewrite Hnone. cbn [weightedMargin].
    assert (E : Swing.extrusionFromMarginIOWA 0 == 1000) by reflexivity.
    rewrite E. reflexivity.
Qed.

(** A feature without state code over the two counties of state 17, at
    the scales the page starts with (1 and 0.4): drawn as state 00 at
    height 240. *)
Lemma state_elevation_range_witness :
  let st := Examples.twoUnits JS.PNaN uniform in
  let v := mkView 0 hybridMode 60 1 (2 # 5) false 235 300 in
  stateElevation st v (mkStateProperties None None None) == 240.
Proof.
  cbv zeta.
  assert (Hnone : filter (fun b => stateFips b = "00"%string)
                    (values (baseMap (Examples.twoUnits JS.PNaN uniform))) = [])
    by (vm_compute; reflexivity).
  assert (E : 1000 * Swing.clamp (heightScale (mkView 0 hybridMode 60 1 (2 # 5) false 235 300)) 0.1 3
              * Swing.clamp (stateHeightScale (mkView 0 hybridMode 60 1 (2 # 5) false 235 300)) 0.1 5.0
              * 0.6 == 240) by reflexivity.
  exact (Qeq_trans _ _ _
           (proj2 (proj2 (proj2 (proj2 (state_elevation_range
                                          (Examples.twoUnits JS.PNaN uniform)
                                          (mkView 0 hybridMode 60 1 (2 # 5) false 235 300)
                                          (mkStateProperties None None None))))
                    eq_refl) Hnone) E).
Defined.

Lemma round_range (x : Q) : 0 <= x <= 100 -> (0 <= JS.round x <= 100)%Z.
Proof.
  intros [H0 H1]. unfold JS.round. split.
  - change 0%Z with (Qfloor 0). apply Qfloor_resp_le. lra.
  - change 100%Z with (Qfloor (201 # 2)). apply Qfloor_resp_le. lra.
Qed.

(** The halo reads the swing without a county code, hence without the
    local swings of the solver. *)
Lemma halo_swing_inputs (st : Page) (m : gmap string LocalSwing) (b : CountyBaseline) :
  projectedSwing (setSolverLocalSwings m st) (Some b) None = projectedSwing st (Some b) None.
Proof.
  unfold projectedSwing. rewrite !PageLaws.localSwingFor_None. reflexivity.
Qed.

(** X21.  The outline of a county is white unless the difference halo is
    on, the county is in the baseline and a swing is active; then it is
    the red [220,38,38] for a swing of zero or more and the blue
    [37,99,235] for a swing below zero, with the alpha
    [120 + round(min(100, |swing| * 10))], which lies between 120 and
    220, is 120 for a swing of zero and 220 for a swing of 10 points or
    more.  The halo ignores the local swings of the solver: replacing
    them leaves every outline as it is. *)
Theorem halo_colour (st : Page) (v : View) (fips : string) (m : gmap string LocalSwing) :
  let c := countyLineColor st v fips in
  (showDiffHalo v = false -> c = Swing.mkRgba 255 255 255 200)
  /\ (showDiffHalo v = true -> baseMap st !! fips = None \/ anySwing st = false ->
      c = Swing.mkRgba 255 255 255 180)
  /\ (forall b : CountyBaseline,
        showDiffHalo v = true -> baseMap st !! fips = Some b -> anySwing st = true ->
        let s := swing (projectedSwing st (Some b) None) in
        120 <= Swing.alpha c <= 220
        /\ (0 <= s -> (Swing.red c, Swing.green c, Swing.blue c) = (220, 38, 38)%Z)
        /\ (s < 0 -> (Swing.red c, Swing.green c, Swing.blue c) = (37, 99, 235)%Z)
        /\ Swing.alpha c = inject_Z (120 + JS.round (JS.min 100 (JS.abs s * 10)))
        /\ (s == 0 -> Swing.alpha c = 120)
        /\ (10 <= Qabs s -> Swing.alpha c = 220))
  /\ countyLineColor (setSolverLocalSwings m st) v fips = c.
Proof.
  intros c. subst c. unfold countyLineColor.
  split; [|split; [|split]].
  - intros H. rewrite H. reflexivity.
  - intros H [E | E]; rewrite H; cbn [negb].
    + rewrite E. reflexivity.
    + rewrite E. destruct (baseMap st !! fips); reflexivity.
  - intros b H Hb HA. rewrite H, Hb, HA. cbn [negb].
    set (s := swing (projectedSwing st (Some b) None)).
    assert (R : 0 <= JS.min 100 (JS.abs s * 10) <= 100) by (q_cases; lra).
    pose proof (round_range _ R) as [R0 R1].
    assert (A : 120 <= inject_Z (120 + JS.round (JS.min 100 (JS.abs s * 10))) <= 220).
    { split.
      - change 120 with (inject_Z 120) at 1. rewrite <- Zle_Qle. lia.
      - change 220 with (inject_Z 220). rewrite <- Zle_Qle. lia. }
    assert (Z0 : s == 0 -> JS.round (JS.min 100 (JS.abs s * 10)) = 0%Z).
    { intros E. unfold JS.round.
      assert (X : JS.min 100 (JS.abs s * 10) + (1 # 2) == (1 # 2)) by (q_cases; lra).
      rewrite (Qfloor_comp _ _ X). reflexivity. }
    assert (Z1 : 10 <= Qabs s -> JS.round (JS.min 100 (JS.abs s * 10)) = 100%Z).
    { intros E. unfold JS.round.
      assert (X : JS.min 100 (JS.abs s * 10) + (1 # 2) == (201 # 2)) by (q_cases; lra).
      rewrite (Qfloor_comp _ _ X). reflexivity. }
    destruct (JS.leb 0 s) eqn:L; cbn [Swing.alpha Swing.red Swing.green Swing.blue].
    + apply JSFacts.leb_le in L.
      split; [exact A|]. split; [reflexivity|]. split; [intros; lra|]. split; [reflexivity|].
      split; intros E; [rewrite (Z0 E) | rewrite (Z1 E)]; reflexivity.
    + apply JSFacts.leb_gt in L.
      split; [exact A|]. split; [intros; lra|]. split; [reflexivity|]. split; [reflexivity|].
      split; intros E; [rewrite (Z0 E) | rewrite (Z1 E)]; reflexivity.
  - cbn [baseMap setSolverLocalSwings].
    assert (HA : anySwing (setSolverLocalSwings m st) = anySwing st) by reflexivity.
    rewrite HA. destruct (baseMap st !! fips) as [b|]; [|reflexivity].
    rewrite halo_swing_inputs. reflexivity.
Qed.

(** A 51/49 county under a 3-point Democratic swing: swing -3, hence the
    blue outline with alpha 120 + 30. *)
Lemma halo_colour_witness :
  let st := mkPage 3 0 JS.PNaN uniform false ∅ StatusNone 0
              (<["17001" := mkCounty "17001" "17" "Adams" 100 51 49]> ∅) ∅ in
  let v := mkView 0 hybridMode 60 1 (2 # 5) true 235 300 in
  countyLineColor st v "17001" = Swing.mkRgba 37 99 235 150
  /\ (Swing.red (countyLineColor st v "17001"), Swing.green (countyLineColor st v "17001"),
      Swing.blue (countyLineColor st v "17001")) = (37, 99, 235)%Z.
Proof.
  cbv zeta. split; [vm_compute; reflexivity|].
  set (b := mkCounty "17001" "17" "Adams" 100 51 49).
  set (st := mkPage 3 0 JS.PNaN uniform false ∅ StatusNone 0 (<["17001" := b]> ∅) ∅).
  set (v := mkView 0 hybridMode 60 1 (2 # 5) true 235 300).
  assert (H : baseMap st !! "17001"%string = Some b) by (vm_compute; reflexivity).
  assert (HA : anySwing st = true) by (vm_compute; reflexivity).
  assert (HS : swing (projectedSwing st (Some b) None) < 0) by (vm_compute; reflexivity).
  exact (proj1 (proj2 (proj2 (proj1 (proj2 (proj2 (halo_colour st v "17001" ∅)))
                                b eq_refl H HA))) HS).
Defined.

End StylingLaws.

(** ** Laws of the turnout statistics *)

Module StatsLaws.

Import RustBelt Spec RustBeltFacts.

Lemma insertAscending_In (x y : Q) (l : list Q) :
  In y (insertAscending x l) <-> x = y \/ In y l.
Proof.
  induction l as [|z l IH]; simpl; [tauto|].
  destruct (JS.leb x z); simpl; [tauto|]. rewrite IH. tauto.
Qed.

Lemma insertAscending_length (x : Q) (l : list Q) :
  length (insertAscending x l) = S (length l).
Proof.
  induction l as [|z l IH]; simpl; [reflexivity|].
  destruct (JS.leb x z); simpl; [reflexivity|]. rewrite IH. reflexivity.
Qed.

Lemma insertAscending_ascending (x : Q) (l : list Q) :
  ascending l -> ascending (insertAscending x l).
Proof.
  induction l as [|z l IH]; intros H.
  - simpl. split; [intros y []|exact I].
  - simpl in H. destruct H as [Hz Hl]. cbn [insertAscending].
    destruct (JS.leb x z) eqn:E.
    + apply JSFacts.leb_le in E. simpl. split; [|split; assumption].
      intros y [<- | Hy]; [exact E|]. apply Qle_trans with z; [exact E | apply Hz, Hy].
    + apply JSFacts.leb_gt in E. cbn [ascending]. split; [|apply IH, Hl].
      intros y Hy. apply insertAscending_In in Hy as [<- | Hy]; [lra | apply Hz, Hy].
Qed.

Lemma sortAscending_facts (l : list Q) :
  ascending (sortAscending l)
  /\ length (sortAscending l) = length l
  /\ (forall y, In y (sortAscending l) <-> In y l).
Proof.
  induction l as [|x l (IA & IL & II)]; simpl.
  - repeat split; tauto.
  - split; [apply insertAscending_ascending, IA|].
    split; [rewrite insertAscending_length, IL; reflexivity|].
    intros y. rewrite insertAscending_In, II. tauto.
Qed.

(** In an ascending list a later element is never smaller. *)
Lemma ascending_nth (l : list Q) (i j : nat) :
  ascending l -> (i <= j)%nat -> (j < length l)%nat -> nth i l 0 <= nth j l 0.
Proof.
  revert i j. induction l as [|x l IH]; intros i j H Hij Hj; simpl in Hj; [lia|].
  destruct H as [Hx Hl]. destruct j as [|j].
  - assert (i = 0%nat) by lia. subst i. simpl. lra.
  - destruct i as [|i].
    + simpl. apply Hx. apply nth_In. lia.
    + simpl. apply IH; [exact Hl | lia | lia].
Qed.

Lemma ascending_last (l : list Q) (y : Q) :
  ascending l -> In y l -> y <= nth (length l - 1) l 0.
Proof.
  intros H Hy. destruct (In_nth l y 0 Hy) as (k & Hk & <-).
  apply ascending_nth; [exact H | lia | lia].
Qed.

(** What the [forEach] pushes. *)
Lemma positiveTotals_In (entries : list CountyBaseline) (t : Q) :
  In t (positiveTotals entries)
  <-> exists b, In b entries /\ t = JS.orElse (totalVotes2024 b) 0 /\ 0 < t.
Proof.
  unfold positiveTotals.
  assert (G : forall acc,
            In t (fold_left
                    (fun totals b =>
                       let t := JS.orElse (totalVotes2024 b) 0 in
                       if JS.gtb t 0 then totals ++ [t] else totals) entries acc)
            <-> In t acc
                \/ exists b, In b entries /\ t = JS.orElse (totalVotes2024 b) 0 /\ 0 < t).
  { induction entries as [|b l IH]; intros acc; cbn [fold_left].
    - split; [auto | intros [H | (b & [] & _)]; exact H].
    - rewrite IH. cbv zeta.
      destruct (JS.gtb (JS.orElse (totalVotes2024 b) 0) 0) eqn:E.
      + apply JSFacts.gtb_gt in E. rewrite in_app_iff. simpl. split.
        * intros [[H | [H | []]] | (b' & Hb' & Hr)].
          -- left. exact H.
          -- right. exists b. subst t. repeat split; auto.
          -- right. exists b'. split; [right; exact Hb' | exact Hr].
        * intros [H | (b' & [-> | Hb'] & Ht & Hp)].
          -- left. left. exact H.
          -- left. right. left. symmetry. exact Ht.
          -- right. exists b'. auto.
      + apply JSFacts.gtb_le in E. split.
        * intros [H | (b' & Hb' & Hr)]; [left; exact H|].
          right. exists b'. split; [right; exact Hb' | exact Hr].
        * intros [H | (b' & [-> | Hb'] & Ht & Hp)].
          -- left. exact H.
          -- subst t. lra.
          -- right. exists b'. auto. }
  rewrite G. simpl. tauto.
Qed.

(** The interpolation index and weight. *)
Lemma percentile_position (n : nat) :
  (1 <= n)%nat ->
  let pos := inject_Z (Z.of_nat (n - 1)) * 0.95 in
  let base := JS.floor pos in
  (Z.to_nat base <= n - 1)%nat
  /\ 0 <= JS.orElse (pos - inject_Z base) 0 <= 1.
Proof.
  intros Hn pos base.
  assert (Hk : 0 <= inject_Z (Z.of_nat (n - 1))).
  { change 0 with (inject_Z 0). rewrite <- Zle_Qle. lia. }
  assert (Hpos : 0 <= pos <= inject_Z (Z.of_nat (n - 1))) by (subst pos; split; nra).
  pose proof (Qfloor_le pos) as F1. pose proof (Qlt_floor pos) as F2.
  fold (JS.floor pos) in F1, F2. fold base in F1, F2.
  rewrite inject_Z_plus in F2.
  assert (B0 : (0 <= base)%Z).
  { subst base. unfold JS.floor. change 0%Z with (Qfloor 0). apply Qfloor_resp_le. lra. }
  assert (B1 : (base <= Z.of_nat (n - 1))%Z).
  { rewrite Zle_Qle. lra. }
  split; [lia|].
  pose proof (JSFacts.orElse_zero (pos - inject_Z base)) as Ho.
  generalize dependent (JS.orElse (pos - inject_Z base) 0). intros f Ho.
  change (inject_Z 1) with 1 in F2. lra.
Qed.

(** X22.  The turnout statistics are sound for the height normalisation:
    the 95th percentile and the maximum are at least 1, the percentile
    never exceeds the maximum, no county of the baseline has more votes
    than the maximum, and a baseline without a positive total gives
    [p95 = max = 1]. *)
Theorem turnout_stats_sound (st : Page) :
  let s := turnoutStats st in
  1 <= p95 s <= max s
  /\ (forall b, In b (values (baseMap st)) -> totalVotes2024 b <= max s)
  /\ ((forall b, In b (values (baseMap st)) -> totalVotes2024 b <= 0) -> s = mkStats 1 1).
Proof.
  intros s. subst s. unfold turnoutStats.
  pose proof (positiveTotals_In (values (baseMap st))) as HIn.
  destruct (positiveTotals (values (baseMap st))) as [|t0 ts] eqn:Et.
  - cbn [p95 max]. split; [lra|]. split; [|reflexivity].
    intros b Hb. destruct (Qlt_le_dec 0 (totalVotes2024 b)) as [Hp|Hn]; [|lra].
    exfalso. apply (proj2 (HIn (JS.orElse (totalVotes2024 b) 0))).
    exists b. pose proof (JSFacts.orElse_zero (totalVotes2024 b)). repeat split; auto. lra.
  - destruct (sortAscending_facts (t0 :: ts)) as (SA & SL & SI).
    cbv zeta. cbn [p95 max].
    set (sorted := sortAscending (t0 :: ts)) in *.
    assert (Hn : (1 <= length sorted)%nat) by (rewrite SL; simpl; lia).
    destruct (percentile_position (length sorted) Hn) as (Hb & Hf).
    cbv zeta in Hb, Hf.
    set (k := Z.to_nat (JS.floor (inject_Z (Z.of_nat (length sorted - 1)) * 0.95))) in *.
    assert (L1 : nth k sorted 0 <= nth (Nat.min (k + 1) (length sorted - 1)) sorted 0)
      by (apply ascending_nth; [exact SA | lia | lia]).
    assert (L2 : nth (Nat.min (k + 1) (length sorted - 1)) sorted 0
                 <= nth (length sorted - 1) sorted 0)
      by (apply ascending_nth; [exact SA | lia | lia]).
    generalize dependent (JS.orElse (inject_Z (Z.of_nat (length sorted - 1)) * 0.95
                                     - inject_Z (JS.floor (inject_Z (Z.of_nat (length sorted - 1)) * 0.95))) 0).
    intros f Hf.
    assert (P : nth k sorted 0
                + (nth (Nat.min (k + 1) (length sorted - 1)) sorted 0 - nth k sorted 0) * f
                <= nth (length sorted - 1) sorted 0) by nra.
    split; [|split].
    + generalize dependent (nth k sorted 0
                + (nth (Nat.min (k + 1) (length sorted - 1)) sorted 0 - nth k sorted 0) * f).
      intros p P. q_cases. lra.
    + intros b Hb'. destruct (Qlt_le_dec 0 (totalVotes2024 b)) as [Hp|Hnp].
      * assert (Hin : In (JS.orElse (totalVotes2024 b) 0) sorted).
        { apply SI, HIn. exists b.
          pose proof (JSFacts.orElse_zero (totalVotes2024 b)). repeat split; auto. lra. }
        pose proof (ascending_last sorted _ SA Hin) as Hle.
        pose proof (JSFacts.orElse_zero (totalVotes2024 b)) as Ho.
        generalize dependent (nth (length sorted - 1) sorted 0). intros mx _ _ Hle.
        q_cases. lra.
      * q_cases. lra.
    + intros Hall. exfalso.
      assert (Hin : In t0 (t0 :: ts)) by (left; reflexivity).
      apply HIn in Hin as (b & Hb' & Ht & Hp).
      pose proof (Hall b Hb'). pose proof (JSFacts.orElse_zero (totalVotes2024 b)).
      rewrite Ht in Hp. lra.
Qed.

(** Before any baseline has arrived. *)
Lemma turnout_stats_sound_witness : turnoutStats Examples.initialPage = mkStats 1 1.
Proof.
  apply (proj2 (proj2 (turnout_stats_sound Examples.initialPage))).
  intros b Hb. vm_compute in Hb. destruct Hb.
Defined.

(** Two counties with 100 and 300 votes: the percentile interpolates at
    0.95 between them. *)
Example turnout_stats_two_counties :
  turnoutStats (Examples.twoUnits JS.PNaN uniform) = mkStats 290.00 300.
Proof. vm_compute. reflexivity. Qed.

End StatsLaws.
